(** * QuantSynth path-synthesis engine: shallow embedding and properties

    The engine of the repository (services/mathUtils.ts and the
    generateSynthesizedData function that sits next to it) is embedded
    below.  JavaScript numbers are read as real numbers: every arithmetic
    operation is the exact one, so rounding, NaN and the infinities of
    IEEE-754 doubles are outside the model.  The ambient sources of the
    host -- Math.random and the clock behind [new Date()] -- are made
    explicit: the uniform draws come from a finite tape that is threaded
    through the code, and the clock reading is an argument. *)

From Stdlib Require Import Reals Lra Lia ZArith List String Ascii Bool.
From Stdlib Require Import DecimalString.
Import ListNotations.

Local Open Scope R_scope.

(** ** Host functions *)

Definition number := R.

(** [a || b] on numbers: the left operand unless it is falsy (zero). *)
Definition jsOr (a b : number) : number :=
  if Req_dec_T a 0 then b else a.

(** A destructuring default [x = d]: used when the field is absent. *)
Definition withDefault {A : Type} (o : option A) (d : A) : A :=
  match o with
  | Some v => v
  | None => d
  end.

(** *** The random source

    A computation that consumes uniform draws: it receives the tape of
    the draws still to come and returns its value with the rest of the
    tape, or [None] when the tape ends before the computation does. *)

Definition Rand (A : Type) : Type := list number -> option (A * list number).

Definition ret {A : Type} (a : A) : Rand A :=
  fun tape => Some (a, tape).

Definition bind {A B : Type} (c : Rand A) (k : A -> Rand B) : Rand B :=
  fun tape =>
    match c tape with
    | Some (a, tape') => k a tape'
    | None => None
    end.

Declare Scope rand_scope.
Delimit Scope rand_scope with rand.
Notation "x <- c ;; k" := (bind c (fun x => k))
  (at level 61, c at next level, right associativity) : rand_scope.

(** [Math.random()] *)
Definition random : Rand number :=
  fun tape =>
    match tape with
    | [] => None
    | u :: tape' => Some (u, tape')
    end.

(** [let u = 0; while (u === 0) u = Math.random();] *)
Fixpoint redrawWhileZero (tape : list number) : option (number * list number) :=
  match tape with
  | [] => None
  | u :: tape' => if Req_dec_T u 0 then redrawWhileZero tape' else Some (u, tape')
  end.

(** The number of draws of a tape that are not zero. *)
Fixpoint nonzeroDraws (tape : list number) : nat :=
  match tape with
  | [] => O
  | u :: tape' => if Req_dec_T u 0 then nonzeroDraws tape' else S (nonzeroDraws tape')
  end.

(** *** Dates

    A [Date] is its time value, the milliseconds since the epoch in UTC.
    [getDate] and [setDate] work on the local time, [toISOString] on UTC.
    The offset of the local zone depends on the instant (daylight saving
    time), as ECMAScript's [LocalTZA(t, isUTC)] does: with [isUTC] the
    instant [t] is a UTC time value, without it a local one. *)

Module JSDate.

Local Open Scope Z_scope.

Definition Date := Z.

Record Host : Type := mkHost {
  now : Date;                  (* the reading of [new Date()] *)
  LocalTZA : Z -> bool -> Z    (* local time minus UTC, in milliseconds *)
}.

(** A zone whose offset never changes. *)
Definition fixedOffset (tza : Z) : Z -> bool -> Z := fun _ _ => tza.

Definition LocalTime (h : Host) (t : Z) : Z := t + LocalTZA h t true.
Definition UTC (h : Host) (t : Z) : Z := t - LocalTZA h t false.

Definition msPerDay : Z := 86400000.

Definition Day (t : Z) : Z := t / msPerDay.
Definition TimeWithinDay (t : Z) : Z := t mod msPerDay.
Definition MakeDate (day time : Z) : Z := day * msPerDay + time.

(** Year, month (1..12) and day of the month of a day number, in the
    proleptic Gregorian calendar. *)
Definition civilFromDays (day : Z) : Z * Z * Z :=
  let z := day + 719468 in
  let era := z / 146097 in
  let doe := z - era * 146097 in
  let yoe := (doe - doe / 1460 + doe / 36524 - doe / 146096) / 365 in
  let doy := doe - (365 * yoe + yoe / 4 - yoe / 100) in
  let mp := (5 * doy + 2) / 153 in
  let d := doy - (153 * mp + 2) / 5 + 1 in
  let m := if mp <? 10 then mp + 3 else mp - 9 in
  let y := yoe + era * 400 + (if m <=? 2 then 1 else 0) in
  (y, m, d).

Definition DateFromTime (t : Z) : Z :=
  let '(_, _, d) := civilFromDays (Day t) in d.

(** [d.getDate()] *)
Definition getDate (h : Host) (d : Date) : Z :=
  DateFromTime (LocalTime h d).

(** [MakeDay(year, month, dt)] for the year and month of local time [t]:
    the day number of the first of that month, plus [dt - 1]. *)
Definition MakeDayInMonthOf (t dt : Z) : Z :=
  (Day t - (DateFromTime t - 1)) + dt - 1.

(** [d.setDate(dt)] *)
Definition setDate (h : Host) (d : Date) (dt : Z) : Date :=
  let t := LocalTime h d in
  UTC h (MakeDate (MakeDayInMonthOf t dt) (TimeWithinDay t)).

Definition addDays (d : Date) (i : Z) : Date := d + i * msPerDay.

(** The instant at which the local clock reads what it reads at [d],
    [i] days later in the local calendar. *)
Definition sameClockAfter (h : Host) (d : Date) (i : Z) : Date :=
  UTC h (addDays (LocalTime h d) i).

Definition digits (n : Z) : string :=
  NilZero.string_of_uint (N.to_uint (Z.to_N n)).

Fixpoint zeros (k : nat) : string :=
  match k with
  | O => EmptyString
  | S k' => String "0" (zeros k')
  end.

Definition padStart (width : nat) (s : string) : string :=
  (zeros (width - String.length s) ++ s)%string.

(** The ISO rendering of the calendar date of a day number. *)
Definition isoDateOfDay (day : Z) : string :=
let '(y, m, dd) := civilFromDays day in
let year :=
  if Z.leb 0 y && Z.leb y 9999 then padStart 4 (digits y)
  else ((if Z.ltb y 0 then "-" else "+") ++ padStart 6 (digits (Z.abs y)))%string in
(year ++ "-" ++ padStart 2 (digits m) ++ "-" ++ padStart 2 (digits dd))%string.

(** [d.toISOString().split('T')[0]] *)
Definition toISODate (d : Date) : string := isoDateOfDay (Day d).

End JSDate.

(** ** types.ts *)

Inductive ModelType : Type :=
  | EQUITY_GBM
  | EQUITY_MERTON_JUMP
  | INTEREST_RATE_VASICEK
  | INTEREST_RATE_CIR
  | MACRO_INFLATION
  | OU_PROCESS.

Inductive AssetClass : Type :=
  | EQUITY
  | FIXED_INCOME
  | FX
  | COMMODITY
  | FORWARD
  | FUTURE
  | OPTION
  | SWAP
  | SWAPTION
  | CENTRAL_BANK_RATE
  | INFLATION_RATE
  | UNEMPLOYMENT_RATE
  | TOTAL_PRODUCTIVITY
  | GDP_GROWTH.

Definition AssetClass_eq_dec (a b : AssetClass) : {a = b} + {a <> b}.
Proof. decide equality. Defined.

Module Greeks.
Record t : Type := mk {
  delta : number;
  gamma : number;
  vega : number;
  theta : number;
  rho : number
}.
End Greeks.

Module CorrelationFactors.
(** Every factor is optional; an absent key is [None]. *)
Record t : Type := mk {
  equity : option number;
  rates : option number;
  volatility : option number;
  commodity : option number
}.

Definition empty : t := mk None None None None.
End CorrelationFactors.

Module SynthesisParameters.
Record t : Type := mk {
  modelType : ModelType;
  assetClass : AssetClass;
  initialValue : number;
  timeHorizon : Z;
  dt : number;
  mu : option number;
  sigma : option number;
  kappa : option number;
  theta : option number;
  correlations : option CorrelationFactors.t;
  dividendYield : option number;
  peRatio : option number;
  expectedEarnings : option number;
  foreignRate : option number;
  domesticRate : option number;
  convenienceYield : option number;
  storageCost : option number;
  seasonalAmplitude : option number;
  creditSpread : option number;
  cdsSpread : option number;
  baseRate : option number;
  strikePrice : option number;
  riskFreeRate : option number;
  expiryTime : option number;
  isCall : option bool;
  impliedVol : option number;
  lambda : option number;
  jumpMu : option number;
  jumpSigma : option number
}.
End SynthesisParameters.

Module DataPoint.
Record t : Type := mk {
  index : Z;
  timestamp : string;
  value : number;
  underlyingValue : option number;
  secondaryValue : option number;
  peRatio : option number;
  expectedEarnings : option number;
  benchmarkValue : option number;
  greeks : option Greeks.t
}.
End DataPoint.

(** A summary figure: over an empty path [Math.min()] is [Infinity],
    [Math.max()] is [-Infinity] and the mean is [NaN]. *)
Inductive figure : Type :=
  | Finite (x : number)
  | PosInfinity
  | NegInfinity
  | NaN.

Module Summary.
Record t : Type := mk {
  max : figure;
  min : figure;
  avg : figure;
  vol : figure
}.
End Summary.

Module SynthesisResult.
Record t : Type := mk {
  parameters : SynthesisParameters.t;
  data : list DataPoint.t;
  summary : Summary.t
}.
End SynthesisResult.

Record Priced : Type := mkPriced {
  price : number;
  greeks : Greeks.t
}.

(** ** services/mathUtils.ts *)

Local Open Scope rand_scope.

(** Box-Muller transform to generate normally distributed random numbers *)
Definition getStandardNormal : Rand number :=
  u <- redrawWhileZero ;;
  v <- redrawWhileZero ;;
  ret (sqrt (-2.0 * ln u) * cos (2.0 * PI * v)).

Definition sumOf (data : list number) : number :=
  fold_left (fun a b => a + b) data 0.

Definition minOf (data : list number) : figure :=
  match data with
  | [] => PosInfinity
  | x :: rest => Finite (fold_left Rmin rest x)
  end.

Definition maxOf (data : list number) : figure :=
  match data with
  | [] => NegInfinity
  | x :: rest => Finite (fold_left Rmax rest x)
  end.

Definition calculateSummary (data : list number) : Summary.t :=
  let sum := sumOf data in
  let len := INR (List.length data) in
  let avg := sum / len in
  let min := minOf data in
  let max := maxOf data in
  let variance := fold_left (fun a b => a + (b - avg) ^ 2) data 0 / len in
  let vol := sqrt variance in
  match data with
  | [] => Summary.mk max min NaN NaN
  | _ :: _ => Summary.mk max min (Finite avg) (Finite vol)
  end.

(** Standard Normal Cumulative Distribution Function *)
Definition CND (x : number) : number :=
  let a1 := 0.31938153 in
  let a2 := -0.356563782 in
  let a3 := 1.781477937 in
  let a4 := -1.821255978 in
  let a5 := 1.330274429 in
  let L := Rabs x in
  let K := 1.0 / (1.0 + 0.2316419 * L) in
  let w := 1.0 - 1.0 / sqrt (2.0 * PI) * exp (- L * L / 2.0)
                 * (a1 * K + a2 * K * K + a3 * K ^ 3 + a4 * K ^ 4 + a5 * K ^ 5) in
  if Rlt_dec x 0 then 1.0 - w else w.

(** Normal PDF *)
Definition normalPDF (x : number) : number :=
  (1 / sqrt (2 * PI)) * exp (-0.5 * x * x).

(** Black-Scholes Option Pricing and Greeks *)
Definition calculateBS (S K T r sigma : number) (isCall : bool) : Priced :=
  if Rle_dec T 0 then
    mkPriced (Rmax 0 (if isCall then S - K else K - S))
      (Greeks.mk
         (if isCall then (if Rgt_dec S K then 1 else 0)
          else (if Rlt_dec S K then -1 else 0))
         0 0 0 0)
  else
    let d1 := (ln (S / K) + (r + sigma * sigma / 2.0) * T) / (sigma * sqrt T) in
    let d2 := d1 - sigma * sqrt T in
    let price :=
      if isCall
      then S * CND d1 - K * exp (- r * T) * CND d2
      else K * exp (- r * T) * CND (- d2) - S * CND (- d1) in
    let delta := if isCall then CND d1 else CND d1 - 1 in
    let gamma := normalPDF d1 / (S * sigma * sqrt T) in
    let vega := S * normalPDF d1 * sqrt T in
    let theta :=
      if isCall
      then - (S * normalPDF d1 * sigma) / (2 * sqrt T) - r * K * exp (- r * T) * CND d2
      else - (S * normalPDF d1 * sigma) / (2 * sqrt T) + r * K * exp (- r * T) * CND (- d2) in
    let rho :=
      if isCall
      then K * T * exp (- r * T) * CND d2
      else - K * T * exp (- r * T) * CND (- d2) in
    mkPriced price (Greeks.mk delta gamma vega theta rho).

(** Black's Model for Swaptions (Price is based on swap rates) *)
Definition calculateBlackSwaption (F K T r sigma : number) (isPayer : bool) : Priced :=
  if Rle_dec T 0 then
    mkPriced (Rmax 0 (if isPayer then F - K else K - F))
      (Greeks.mk
         (if isPayer then (if Rgt_dec F K then 1 else 0)
          else (if Rlt_dec F K then -1 else 0))
         0 0 0 0)
  else
    let d1 := (ln (F / K) + (sigma * sigma / 2.0) * T) / (sigma * sqrt T) in
    let d2 := d1 - sigma * sqrt T in
    let annuity := (1 - exp (- r * 5)) / r in
    let price :=
      annuity * exp (- r * T)
      * (if isPayer then F * CND d1 - K * CND d2 else K * CND (- d2) - F * CND (- d1)) in
    let delta := if isPayer then exp (- r * T) * CND d1 else - exp (- r * T) * CND (- d1) in
    let gamma := (exp (- r * T) * normalPDF d1) / (F * sigma * sqrt T) in
    let vega := annuity * exp (- r * T) * F * normalPDF d1 * sqrt T in
    let theta := - (annuity * exp (- r * T) * F * normalPDF d1 * sigma) / (2 * sqrt T) in
    let rho := - T * price in
    mkPriced price (Greeks.mk delta gamma vega theta rho).

(** ** generateSynthesizedData *)

Module CorrelationKeys.
Inductive key : Type := Equity | Rates | Volatility | Commodity.

(** [correlations[k]] *)
Definition get (c : CorrelationFactors.t) (k : key) : option number :=
  match k with
  | Equity => CorrelationFactors.equity c
  | Rates => CorrelationFactors.rates c
  | Volatility => CorrelationFactors.volatility c
  | Commodity => CorrelationFactors.commodity c
  end.

Definition present (c : CorrelationFactors.t) (k : key) : bool :=
  match get c k with
  | Some _ => true
  | None => false
  end.

(** [Object.keys(correlations)] *)
Definition keys (c : CorrelationFactors.t) : list key :=
  filter (present c) [Equity; Rates; Volatility; Commodity].
End CorrelationKeys.

(** The constants that the destructuring of [params] binds, each with its
    default when the field is absent. *)
Module Locals.
Record t : Type := mk {
  modelType : ModelType;
  assetClass : AssetClass;
  initialValue : number;
  timeHorizon : Z;
  dt : number;
  mu : number;
  sigma : number;
  kappa : number;
  theta : number;
  lambda : number;
  jumpMu : number;
  jumpSigma : number;
  dividendYield : number;
  peRatio : number;
  expectedEarnings : number;
  foreignRate : number;
  domesticRate : number;
  convenienceYield : number;
  storageCost : number;
  seasonalAmplitude : number;
  creditSpread : number;
  cdsSpread : number;
  strikePrice : number;
  riskFreeRate : number;
  expiryTime : number;
  isCall : bool;
  impliedVol : number;
  correlations : CorrelationFactors.t
}.
End Locals.

Definition destructure (params : SynthesisParameters.t) : Locals.t :=
  Locals.mk
    (SynthesisParameters.modelType params)
    (SynthesisParameters.assetClass params)
    (SynthesisParameters.initialValue params)
    (SynthesisParameters.timeHorizon params)
    (SynthesisParameters.dt params)
    (withDefault (SynthesisParameters.mu params) 0.05)
    (withDefault (SynthesisParameters.sigma params) 0.2)
    (withDefault (SynthesisParameters.kappa params) 2.0)
    (withDefault (SynthesisParameters.theta params) 0.05)
    (withDefault (SynthesisParameters.lambda params) 0)
    (withDefault (SynthesisParameters.jumpMu params) 0)
    (withDefault (SynthesisParameters.jumpSigma params) 0)
    (withDefault (SynthesisParameters.dividendYield params) 0)
    (withDefault (SynthesisParameters.peRatio params) 15)
    (withDefault (SynthesisParameters.expectedEarnings params) 5.0)
    (withDefault (SynthesisParameters.foreignRate params) 0)
    (withDefault (SynthesisParameters.domesticRate params) 0)
    (withDefault (SynthesisParameters.convenienceYield params) 0)
    (withDefault (SynthesisParameters.storageCost params) 0)
    (withDefault (SynthesisParameters.seasonalAmplitude params) 0)
    (withDefault (SynthesisParameters.creditSpread params) 0.01)
    (withDefault (SynthesisParameters.cdsSpread params) 0)
    (withDefault (SynthesisParameters.strikePrice params) 100)
    (withDefault (SynthesisParameters.riskFreeRate params) 0.03)
    (withDefault (SynthesisParameters.expiryTime params) 1.0)
    (withDefault (SynthesisParameters.isCall params) true)
    (withDefault (SynthesisParameters.impliedVol params) 0.2)
    (withDefault (SynthesisParameters.correlations params) CorrelationFactors.empty).

(** Pricing volatility for derivatives *)
Definition pricingVol (l : Locals.t) : number :=
  jsOr (Locals.impliedVol l) (Locals.sigma l).

Definition marketMu : number := 0.06.
Definition marketSigma : number := 0.15.

(** Effective Drift Calculation based on Category *)
Definition effectiveMu (l : Locals.t) : number :=
  match Locals.assetClass l with
  | EQUITY => Locals.mu l - Locals.dividendYield l
  | FX => Locals.mu l + (Locals.domesticRate l - Locals.foreignRate l)
  | COMMODITY => Locals.mu l + (Locals.storageCost l - Locals.convenienceYield l)
  | FORWARD | FUTURE => Locals.riskFreeRate l - Locals.dividendYield l
  | UNEMPLOYMENT_RATE => 0
  | _ => Locals.mu l
  end.

Definition clamp (x : number) : number := Rmax (-1) (Rmin 1 x).

(** [factorKeys.reduce((acc, k) => acc + (correlations[k] || 0), 0)] *)
Definition factorSum (c : CorrelationFactors.t) (factorKeys : list CorrelationKeys.key) : number :=
  fold_left
    (fun acc k =>
       acc + match CorrelationKeys.get c k with
             | Some v => jsOr v 0
             | None => 0
             end)
    factorKeys 0.

(** Calculate Aggregated Correlation Factor (Effective rho) *)
Definition aggregateRho (l : Locals.t) : number :=
  let factorKeys := CorrelationKeys.keys (Locals.correlations l) in
  match factorKeys with
  | [] => 0
  | _ :: _ => clamp (factorSum (Locals.correlations l) factorKeys)
  end.

(** Correlation coupling formula:
    Z_asset = rho * Z_market + sqrt(1 - rho^2) * Z_idiosyncratic *)
Definition coupledShock (rho marketEpsilon idiosyncraticEpsilon : number) : number :=
  (rho * marketEpsilon) + (sqrt (1 - rho * rho) * idiosyncraticEpsilon).

Definition isMacroSeasonal (a : AssetClass) : bool :=
  match a with
  | COMMODITY | INFLATION_RATE | GDP_GROWTH => true
  | _ => false
  end.

(** Seasonal factor (Annual cycle) *)
Definition seasonalShiftAt (l : Locals.t) (i : Z) : number :=
  if isMacroSeasonal (Locals.assetClass l) then
    if Rgt_dec (Locals.seasonalAmplitude l) 0
    then sin (2 * PI * IZR i / 252) * Locals.seasonalAmplitude l
    else 0
  else 0.

(** The loop variables that survive an iteration. *)
Record LoopState : Type := mkLoopState {
  currentSpot : number;
  marketProxy : number;
  data : list DataPoint.t
}.

(** The Path Point of iteration [i]: the part of the loop body up to and
    including [data.push]. *)
Definition pathPoint (h : JSDate.Host) (l : Locals.t) (pricingVol : number)
    (startDate : JSDate.Date) (i : Z) (currentSpot marketProxy : number) : DataPoint.t :=
  let currentDate := JSDate.setDate h startDate (JSDate.getDate h startDate + i) in
  let T := Rmax 0.0001 (Locals.expiryTime l - (IZR i / 365)) in
  let seasonalShift := seasonalShiftAt l i in
  let displayValue := currentSpot + seasonalShift in
  let strikeRate := jsOr (Locals.strikePrice l / 1000) 0.03 in
  let point (value : number) (secondary pointPe pointEarnings : option number)
        (greeks : option Greeks.t) :=
    DataPoint.mk i (JSDate.toISODate currentDate) value (Some currentSpot)
      secondary pointPe pointEarnings (Some marketProxy) greeks in
  match Locals.assetClass l with
  | FIXED_INCOME =>
      point (Locals.riskFreeRate l + Locals.creditSpread l + Locals.cdsSpread l + currentSpot)
        (Some (Locals.cdsSpread l)) None None None
  | OPTION =>
      let bs := calculateBS currentSpot (Locals.strikePrice l) T (Locals.riskFreeRate l)
                  pricingVol (Locals.isCall l) in
      point (price bs) (Some (Locals.strikePrice l)) None None (Some (greeks bs))
  | FORWARD | FUTURE =>
      point (currentSpot * exp ((Locals.riskFreeRate l - Locals.dividendYield l) * T))
        (Some currentSpot) None None None
  | SWAP =>
      point ((currentSpot - strikeRate) * 10000) (Some (Locals.strikePrice l)) None None None
  | SWAPTION =>
      let black := calculateBlackSwaption currentSpot strikeRate T (Locals.riskFreeRate l)
                     pricingVol (Locals.isCall l) in
      point (price black) (Some (Locals.strikePrice l)) None None (Some (greeks black))
  | UNEMPLOYMENT_RATE =>
      point (Rmax 2.0 (currentSpot + seasonalShift)) None None None None
  | INFLATION_RATE =>
      point (currentSpot + seasonalShift) None None None None
  | EQUITY =>
      let pointEarnings := Locals.expectedEarnings l * exp (0.03 * (IZR i / 252)) in
      let pointPe := displayValue / pointEarnings in
      point displayValue None (Some pointPe) (Some pointEarnings) None
  | _ => point displayValue None None None None
  end.

(** Update Primary Asset based on selected Stochastic Process: the
    [switch (modelType)] of the loop body. *)
Definition evolve (l : Locals.t) (effectiveMu : number) (currentSpot assetEpsilon : number)
    : Rand number :=
  let sigma := Locals.sigma l in
  let dt := Locals.dt l in
  let kappa := Locals.kappa l in
  let theta := Locals.theta l in
  match Locals.modelType l with
  | EQUITY_GBM =>
      let driftGBM := (effectiveMu - 0.5 * sigma ^ 2) * dt in
      let diffusionGBM := sigma * sqrt dt * assetEpsilon in
      ret (currentSpot * exp (driftGBM + diffusionGBM))
  | EQUITY_MERTON_JUMP =>
      u <- random ;;
      jumpFactor <-
        (if Rlt_dec u (Locals.lambda l * dt)
         then jumpEpsilon <- getStandardNormal ;;
              ret (exp (Locals.jumpMu l + Locals.jumpSigma l * jumpEpsilon))
         else ret 1.0) ;;
      let driftMerton := (effectiveMu - 0.5 * sigma ^ 2) * dt in
      let diffusionMerton := sigma * sqrt dt * assetEpsilon in
      ret (currentSpot * exp (driftMerton + diffusionMerton) * jumpFactor)
  | INTEREST_RATE_VASICEK =>
      let meanReversionVas := kappa * (theta - currentSpot) * dt in
      let rateDiffusionVas := sigma * sqrt dt * assetEpsilon in
      ret (currentSpot + meanReversionVas + rateDiffusionVas)
  | INTEREST_RATE_CIR =>
      let currentLevel := Rmax currentSpot 0.0001 in
      let meanReversionCIR := kappa * (theta - currentLevel) * dt in
      let rateDiffusionCIR := sigma * sqrt currentLevel * sqrt dt * assetEpsilon in
      ret (currentLevel + meanReversionCIR + rateDiffusionCIR)
  | MACRO_INFLATION | OU_PROCESS =>
      let ouReversion := kappa * (theta - currentSpot) * dt in
      let ouNoise := sigma * sqrt dt * assetEpsilon in
      ret (currentSpot + (effectiveMu * dt) + ouReversion + ouNoise)
  end.

(** One pass through the body of the [for] loop. *)
Definition iteration (h : JSDate.Host) (l : Locals.t)
    (pricingVol effectiveMu rho : number) (startDate : JSDate.Date)
    (i : Z) (st : LoopState) : Rand LoopState :=
  let data' := data st ++ [pathPoint h l pricingVol startDate i (currentSpot st) (marketProxy st)] in
  marketEpsilon <- getStandardNormal ;;
  idiosyncraticEpsilon <- getStandardNormal ;;
  let assetEpsilon := coupledShock rho marketEpsilon idiosyncraticEpsilon in
  let marketProxy' :=
    marketProxy st
    * exp ((marketMu - 0.5 * marketSigma ^ 2) * Locals.dt l
           + marketSigma * sqrt (Locals.dt l) * marketEpsilon) in
  currentSpot' <- evolve l effectiveMu (currentSpot st) assetEpsilon ;;
  ret (mkLoopState currentSpot' marketProxy' data').

(** [for (let i = ...; i <= timeHorizon; i++)] with [count] passes left. *)
Fixpoint forLoop (h : JSDate.Host) (l : Locals.t)
    (pricingVol effectiveMu rho : number) (startDate : JSDate.Date)
    (count : nat) (i : Z) (st : LoopState) : Rand LoopState :=
  match count with
  | O => ret st
  | S count' =>
      st' <- iteration h l pricingVol effectiveMu rho startDate i st ;;
      forLoop h l pricingVol effectiveMu rho startDate count' (i + 1)%Z st'
  end.

(** The number of passes of the loop from [i = 0] while [i <= timeHorizon]. *)
Definition passes (timeHorizon : Z) : nat := Z.to_nat (timeHorizon + 1).

Definition generateSynthesizedData (h : JSDate.Host) (params : SynthesisParameters.t)
    : Rand SynthesisResult.t :=
  let l := destructure params in
  let pricingVol := pricingVol l in
  let currentSpot := Locals.initialValue l in
  let marketProxy := Locals.initialValue l in
  let startDate := JSDate.now h in
  let effectiveMu := effectiveMu l in
  let rho := aggregateRho l in
  st <- forLoop h l pricingVol effectiveMu rho startDate
          (passes (Locals.timeHorizon l)) 0%Z (mkLoopState currentSpot marketProxy []) ;;
  let values := map DataPoint.value (data st) in
  let summary := calculateSummary values in
  ret (SynthesisResult.mk params (data st) summary).

(** ** Notions used by the properties *)



(** [n] draws that are not zero are enough for [c] to return. *)
Definition Enough {A : Type} (n : nat) (c : Rand A) : Prop :=
  forall tape, (n <= nonzeroDraws tape)%nat ->
    exists a tape', c tape = Some (a, tape')
                    /\ (nonzeroDraws tape - n <= nonzeroDraws tape')%nat.

(** The Box-Muller value of two uniform draws. *)
Definition boxMuller (u v : number) : number :=
  sqrt (-2.0 * ln u) * cos (2.0 * PI * v).

(** The benchmark after a pass that drew the market shock [Zm]. *)
Definition nextMarketProxy (l : Locals.t) (proxy Zm : number) : number :=
  proxy * exp ((marketMu - 0.5 * marketSigma ^ 2) * Locals.dt l
               + marketSigma * sqrt (Locals.dt l) * Zm).

(** The Path Points pushed from pass [i] on, starting from the state
    [spot], [proxy]: each one is the Path Point of the current state, and
    the next state comes from one market and one idiosyncratic shock,
    coupled with the same [rho] and evolved with the same [effectiveMu]
    at every pass. *)
Inductive PathFrom (h : JSDate.Host) (l : Locals.t)
    (pricingVol effectiveMu rho : number) (startDate : JSDate.Date)
    : Z -> number -> number -> list DataPoint.t -> Prop :=
  | PathDone : forall i spot proxy,
      PathFrom h l pricingVol effectiveMu rho startDate i spot proxy []
  | PathPass : forall i spot proxy Zm Zi tape spot' tape' rest,
      evolve l effectiveMu spot (coupledShock rho Zm Zi) tape = Some (spot', tape') ->
      PathFrom h l pricingVol effectiveMu rho startDate (i + 1)%Z spot'
        (nextMarketProxy l proxy Zm) rest ->
      PathFrom h l pricingVol effectiveMu rho startDate i spot proxy
        (pathPoint h l pricingVol startDate i spot proxy :: rest).

(** The next state of the square-root (CIR) case of [evolve]. *)
Definition cirNext (l : Locals.t) (spot eps : number) : number :=
  let currentLevel := Rmax spot 0.0001 in
  currentLevel
  + Locals.kappa l * (Locals.theta l - currentLevel) * Locals.dt l
  + Locals.sigma l * sqrt currentLevel * sqrt (Locals.dt l) * eps.

(** *** The specification's wording of the quantities derived once per run *)

Definition isOneOf (a : AssetClass) (classes : list AssetClass) : bool :=
  existsb (fun c => if AssetClass_eq_dec a c then true else false) classes.

(** Equities subtract the dividend yield from the drift; FX adds the
    domestic-minus-foreign rate differential; commodities add storage cost
    minus convenience yield; forwards and futures replace the drift with
    the risk-free rate minus the dividend yield; the unemployment rate
    zeroes it; every other asset class keeps the raw drift. *)
Definition driftBySpec (l : Locals.t) : number :=
  let a := Locals.assetClass l in
  if isOneOf a [EQUITY] then Locals.mu l - Locals.dividendYield l
  else if isOneOf a [FX] then Locals.mu l + (Locals.domesticRate l - Locals.foreignRate l)
  else if isOneOf a [COMMODITY]
       then Locals.mu l + (Locals.storageCost l - Locals.convenienceYield l)
  else if isOneOf a [FORWARD; FUTURE] then Locals.riskFreeRate l - Locals.dividendYield l
  else if isOneOf a [UNEMPLOYMENT_RATE] then 0
  else Locals.mu l.

(** The coefficient of a named factor; an absent factor adds nothing. *)
Definition coefficient (o : option number) : number := withDefault o 0.

Definition noFactors (c : CorrelationFactors.t) : bool :=
  match CorrelationFactors.equity c, CorrelationFactors.rates c,
        CorrelationFactors.volatility c, CorrelationFactors.commodity c with
  | None, None, None, None => true
  | _, _, _, _ => false
  end.

(** The sum of the named factor coefficients clamped to [-1, 1], and 0
    when no factors are given. *)
Definition rhoBySpec (c : CorrelationFactors.t) : number :=
  if noFactors c then 0
  else Rmax (-1)
         (Rmin 1
            (coefficient (CorrelationFactors.equity c)
             + coefficient (CorrelationFactors.rates c)
             + coefficient (CorrelationFactors.volatility c)
             + coefficient (CorrelationFactors.commodity c))).


(** The asset classes whose displayed value is the raw underlying state:
    no display transform, and no seasonal shift in force. *)
Definition displaysUnderlying (l : Locals.t) : bool :=
  match Locals.assetClass l with
  | EQUITY | FX | CENTRAL_BANK_RATE | TOTAL_PRODUCTIVITY => true
  | COMMODITY | INFLATION_RATE | GDP_GROWTH =>
      if Rgt_dec (Locals.seasonalAmplitude l) 0 then false else true
  | _ => false
  end.


(** The next state of the growth (GBM) case of [evolve]. *)
Definition gbmNext (l : Locals.t) (effectiveMu spot eps : number) : number :=
  spot * exp ((effectiveMu - 0.5 * Locals.sigma l ^ 2) * Locals.dt l
              + Locals.sigma l * sqrt (Locals.dt l) * eps).

(** The [d1] and [d2] of [calculateBS]. *)
Definition bsD1 (S K T r sigma : number) : number :=
  (ln (S / K) + (r + sigma * sigma / 2.0) * T) / (sigma * sqrt T).

Definition bsD2 (S K T r sigma : number) : number :=
  bsD1 S K T r sigma - sigma * sqrt T.

(** By how much the call and put prices of [calculateBS] on the same
    inputs miss put-call parity. *)
Definition parityGap (S K T r sigma : number) : number :=
  price (calculateBS S K T r sigma true) - price (calculateBS S K T r sigma false)
  - (S - K * exp (- r * T)).

(** By how much [CND x + CND (- x)] exceeds one at [x = 0]. *)
Definition cndSkew : number := 2 * CND 0 - 1.

(** ** Sample inputs *)

(** A clock reading (2026-11-02T18:00:00Z) in a zone five hours behind UTC. *)
Definition sampleHost : JSDate.Host :=
  JSDate.mkHost 1793642400000%Z (JSDate.fixedOffset (-18000000)%Z).


(** A zone five hours behind UTC that moves its clocks one hour forward on
    2027-03-14 at 02:00 local time (07:00 UTC), as the east of North
    America does; a local reading inside the skipped hour is taken with
    the offset before the change. *)
Definition springForward : Z -> bool -> Z :=
  fun t isUTC =>
    if (t <? (if isUTC then 1805007600000 else 1804993200000))%Z
    then (-18000000)%Z else (-14400000)%Z.

(** That zone when the clock reads 19:30 on the evening of 2027-03-13
    (2027-03-14T00:30:00Z). *)
Definition springForwardHost : JSDate.Host :=
  JSDate.mkHost 1804984200000%Z springForward.

(** Parameters with the required fields only; every optional field absent. *)
Definition requiredOnly (m : ModelType) (a : AssetClass) (initial : number)
    (steps : Z) (step : number) : SynthesisParameters.t :=
  SynthesisParameters.mk m a initial steps step
    None None None None None None None None None None None None None None None
    None None None None None None None None None.

(** A two-step equity run under the growth model. *)
Definition twoStepEquity : SynthesisParameters.t :=
  requiredOnly EQUITY_GBM EQUITY 100 1 (1 / 252).

(** A tape of [n] draws, all one half. *)
Definition halves (n : nat) : list number := repeat (1 / 2) n.

(** A short-rate run under the square-root model: 0.25% initial rate,
    volatility 0.4, default reversion (speed 2, target 5%), daily steps. *)
Definition cirParams : SynthesisParameters.t :=
  SynthesisParameters.mk INTEREST_RATE_CIR CENTRAL_BANK_RATE 0.0025 1 (1 / 252)
    None (Some 0.4) None None None None None None None None None None None None None
    None None None None None None None None None.

(** Draws whose first idiosyncratic shock is [-3]. *)
Definition cirTape : list number :=
  [1 / 2; 1 / 2; exp (- (9 / 2)); 1 / 2] ++ halves 4.

(** The scenario "initialValue=100, modelType=GBM, mu=0, sigma=0, steps=10,
    dt=1/252" for the asset class [a]. *)
Definition flatScenario (a : AssetClass) : SynthesisParameters.t :=
  SynthesisParameters.mk EQUITY_GBM a 100 10 (1 / 252)
    (Some 0) (Some 0) None None None None None None None None None None None None None
    None None None None None None None None None.

(** The parameters the application starts with. *)
Definition INITIAL_PARAMS : SynthesisParameters.t :=
  SynthesisParameters.mk EQUITY_GBM EQUITY 100 365 (1 / 252)
    (Some 0.08) (Some 0.20) (Some 2.0) (Some 0.05)
    (Some (CorrelationFactors.mk (Some 0.7) (Some (-0.2)) (Some (-0.5)) (Some 0.1)))
    (Some 0.02) None None None None None None None None None None None None None
    None None None None None.

(** A one-year call priced over two passes, with an implied volatility of
    exactly zero and a realized volatility of 0.3. *)
Definition zeroImpliedVolOption : SynthesisParameters.t :=
  SynthesisParameters.mk EQUITY_GBM OPTION 100 1 (1 / 252)
    None (Some 0.3) None None None None None None None None None None None None None
    None None None None None (Some 0) None None None.


(** ** App.tsx: the parameter history *)

Module App.

Definition MAX_HISTORY : nat := 50.

(** [xs.slice(-n)]: the last [n] elements, all of them when there are fewer. *)
Definition sliceLast {A : Type} (n : nat) (xs : list A) : list A :=
  skipn (List.length xs - n) xs.

Section Store.

(** The parameters kept in the history, the partial update a control
    sends, the object spread [{...params, ...newParams}] and
    [JSON.stringify]. *)
Variable P : Type.
Variable Patch : Type.
Variable merge : P -> Patch -> P.
Variable stringify : P -> string.

Record History : Type := mkHistory {
  past : list P;
  params : P;
  future : list P
}.

Definition undo (st : History) : History :=
  match List.length (past st) with
  | O => st
  | S n =>
      match nth_error (past st) n with
      | Some previous => mkHistory (firstn n (past st)) previous (params st :: future st)
      | None => st
      end
  end.

Definition redo (st : History) : History :=
  match future st with
  | [] => st
  | next :: newFuture => mkHistory (past st ++ [params st]) next newFuture
  end.

Definition handleParamChange (st : History) (newParams : Patch) : History :=
  let updated := merge (params st) newParams in
  if string_dec (stringify updated) (stringify (params st)) then st
  else mkHistory (sliceLast (MAX_HISTORY - 1) (past st) ++ [params st]) updated [].

Definition handleScenarioApplied (st : History) (newParams : P) : History :=
  mkHistory (sliceLast (MAX_HISTORY - 1) (past st) ++ [params st]) newParams [].

Definition canUndo (st : History) : bool := Nat.ltb 0 (List.length (past st)).
Definition canRedo (st : History) : bool := Nat.ltb 0 (List.length (future st)).

(** The states the application can be in, from its initial parameters. *)
Inductive Reachable (initial : P) : History -> Prop :=
  | AtStart : Reachable initial (mkHistory [] initial [])
  | AfterUndo : forall st, Reachable initial st -> Reachable initial (undo st)
  | AfterRedo : forall st, Reachable initial st -> Reachable initial (redo st)
  | AfterChange : forall st newParams,
      Reachable initial st -> Reachable initial (handleParamChange st newParams)
  | AfterScenario : forall st newParams,
      Reachable initial st -> Reachable initial (handleScenarioApplied st newParams).

End Store.

Arguments mkHistory {P} past params future.
Arguments past {P} h.
Arguments params {P} h.
Arguments future {P} h.
Arguments undo {P} st.
Arguments redo {P} st.
Arguments handleParamChange {P Patch} merge stringify st newParams.
Arguments handleScenarioApplied {P} st newParams.
Arguments canUndo {P} st.
Arguments canRedo {P} st.
Arguments Reachable {P Patch} merge stringify initial _.

(** [Object.values(correlations)] *)
Definition factorValues (c : CorrelationFactors.t) : list number :=
  flat_map
    (fun k => match CorrelationKeys.get c k with
              | Some v => [v]
              | None => []
              end)
    [CorrelationKeys.Equity; CorrelationKeys.Rates; CorrelationKeys.Volatility;
     CorrelationKeys.Commodity].

(** The [correlationStrength] of the summary sent for analysis. *)
Definition correlationStrength (targetParams : SynthesisParameters.t) : number :=
  fold_left (fun acc val => acc + Rabs (jsOr val 0))
    (factorValues
       (withDefault (SynthesisParameters.correlations targetParams) CorrelationFactors.empty))
    0.

End App.

(** ** components/AnalysisBoard.tsx *)

Module Board.

(** The coupling figure of the board. *)
Definition effectiveRho (parameters : SynthesisParameters.t) : number :=
  let corrs :=
    withDefault (SynthesisParameters.correlations parameters) CorrelationFactors.empty in
  fold_left (fun acc val => acc + jsOr val 0) (App.factorValues corrs) 0.

Inductive ShockType : Type := asset | vol | time | rates.

Record ShockImpact : Type := mkShockImpact {
  pnl : number;
  newPrice : number;
  percent : number
}.

Definition hasGreeks (parameters : SynthesisParameters.t) : bool :=
  match SynthesisParameters.assetClass parameters with
  | OPTION | SWAPTION => true
  | _ => false
  end.

(** Shock Calculation Logic *)
Definition shockImpact (parameters : SynthesisParameters.t) (latestPoint : DataPoint.t)
    (shockType : ShockType) (shockMagnitude : number) : ShockImpact :=
  match hasGreeks parameters, DataPoint.greeks latestPoint with
  | true, Some g =>
      let underlyingSpot :=
        match DataPoint.underlyingValue latestPoint with
        | Some u => jsOr u (SynthesisParameters.initialValue parameters)
        | None => SynthesisParameters.initialValue parameters
        end in
      let pnl :=
        match shockType with
        | asset =>
            let dS := underlyingSpot * (shockMagnitude / 100) in
            (Greeks.delta g * dS) + (0.5 * Greeks.gamma g * dS ^ 2)
        | vol => Greeks.vega g * (shockMagnitude / 100)
        | time => Greeks.theta g * (shockMagnitude / 365)
        | rates => Greeks.rho g * (shockMagnitude / 100)
        end in
      mkShockImpact pnl
        (Rmax 0 (DataPoint.value latestPoint + pnl))
        (if Req_dec_T (DataPoint.value latestPoint) 0 then 0
         else (pnl / DataPoint.value latestPoint) * 100)
  | _, _ => mkShockImpact 0 (DataPoint.value latestPoint) 0
  end.

End Board.

(** ** components/ModelControls.tsx: the validation of the controls *)

Module Controls.

(** A numeric field of the parameters as the controls hold it: absent
    ([undefined]), not a number (the [NaN] that [parseFloat] and [parseInt]
    return on an emptied input), or a number. *)
Inductive field : Type :=
  | undefined
  | notANumber
  | num (x : number).

(** The comparisons of a field with a constant; each is false on
    [undefined] and on [NaN]. *)
Definition lt (a : field) (c : number) : bool :=
  match a with
  | num x => if Rlt_dec x c then true else false
  | _ => false
  end.

Definition gt (a : field) (c : number) : bool :=
  match a with
  | num x => if Rgt_dec x c then true else false
  | _ => false
  end.

Definition le (a : field) (c : number) : bool :=
  match a with
  | num x => if Rle_dec x c then true else false
  | _ => false
  end.

(** [a !== undefined] *)
Definition defined (a : field) : bool :=
  match a with
  | undefined => false
  | _ => true
  end.

(** The fields of the parameters that the validation reads. *)
Module Held.
Record t : Type := mk {
  modelType : ModelType;
  assetClass : AssetClass;
  initialValue : field;
  sigma : field;
  mu : field;
  timeHorizon : field;
  kappa : field;
  theta : field;
  strikePrice : field;
  expiryTime : field;
  impliedVol : field;
  riskFreeRate : field
}.
End Held.

Definition optional (x : option number) : field :=
  match x with
  | Some v => num v
  | None => undefined
  end.

(** Parameters all of whose fields are numbers, or absent, as the controls
    hold them. *)
Definition ofParameters (params : SynthesisParameters.t) : Held.t :=
  Held.mk (SynthesisParameters.modelType params) (SynthesisParameters.assetClass params)
    (num (SynthesisParameters.initialValue params))
    (optional (SynthesisParameters.sigma params))
    (optional (SynthesisParameters.mu params))
    (num (IZR (SynthesisParameters.timeHorizon params)))
    (optional (SynthesisParameters.kappa params))
    (optional (SynthesisParameters.theta params))
    (optional (SynthesisParameters.strikePrice params))
    (optional (SynthesisParameters.expiryTime params))
    (optional (SynthesisParameters.impliedVol params))
    (optional (SynthesisParameters.riskFreeRate params)).

Record ValidationErrors : Type := mkErrors {
  initialValue : option string;
  sigma : option string;
  mu : option string;
  timeHorizon : option string;
  kappa : option string;
  theta : option string;
  strikePrice : option string;
  expiryTime : option string;
  impliedVol : option string;
  riskFreeRate : option string
}.

Definition isDerivative (a : AssetClass) : bool :=
  match a with
  | OPTION | FORWARD | FUTURE | SWAP | SWAPTION => true
  | _ => false
  end.

Definition isOption (a : AssetClass) : bool :=
  match a with
  | OPTION => true
  | _ => false
  end.

Definition isSwaption (a : AssetClass) : bool :=
  match a with
  | SWAPTION => true
  | _ => false
  end.

Definition isMeanReverting (m : ModelType) : bool :=
  match m with
  | INTEREST_RATE_VASICEK | INTEREST_RATE_CIR | OU_PROCESS | MACRO_INFLATION => true
  | _ => false
  end.

Definition report (failed : bool) (message : string) : option string :=
  if failed then Some message else None.

(** Validation Logic *)
Definition validate (params : Held.t) : ValidationErrors :=
  let reverting := isMeanReverting (Held.modelType params) in
  let derivative :=
    isDerivative (Held.assetClass params) || isOption (Held.assetClass params)
    || isSwaption (Held.assetClass params) in
  mkErrors
    (report (le (Held.initialValue params) 0) "Must be > 0")
    (report (lt (Held.sigma params) 0 || gt (Held.sigma params) 1.5) "Range: 0 - 1.5")
    (report (defined (Held.mu params)
             && (lt (Held.mu params) (-1) || gt (Held.mu params) 1))
       "Range: -1 - 1")
    (report (lt (Held.timeHorizon params) 1 || gt (Held.timeHorizon params) 5000)
       "Range: 1 - 5000")
    (report (reverting
             && (defined (Held.kappa params)
                 && (lt (Held.kappa params) 0 || gt (Held.kappa params) 50)))
       "Range: 0 - 50")
    (report (reverting
             && (defined (Held.theta params)
                 && (lt (Held.theta params) (-1) || gt (Held.theta params) 1000)))
       "Unstable value")
    (report (derivative
             && (defined (Held.strikePrice params) && le (Held.strikePrice params) 0))
       "Must be > 0")
    (report (derivative
             && (defined (Held.expiryTime params)
                 && (lt (Held.expiryTime params) 0.01 || gt (Held.expiryTime params) 20)))
       "Range: 0.01 - 20")
    (report (derivative
             && (defined (Held.impliedVol params)
                 && (lt (Held.impliedVol params) 0 || gt (Held.impliedVol params) 2.0)))
       "Range: 0 - 2.0")
    (report (derivative
             && (defined (Held.riskFreeRate params)
                 && (lt (Held.riskFreeRate params) (-0.2)
                     || gt (Held.riskFreeRate params) 0.3)))
       "Range: -20% to 30%").

Definition isSet (e : option string) : bool :=
  match e with
  | Some _ => true
  | None => false
  end.

(** [Object.values(errors).some(e => e !== null && e !== undefined)] *)
Definition hasErrors (errors : ValidationErrors) : bool :=
  existsb isSet
    [initialValue errors; sigma errors; mu errors; timeHorizon errors; kappa errors;
     theta errors; strikePrice errors; expiryTime errors; impliedVol errors;
     riskFreeRate errors].

(** Whether a field holds [NaN] or nothing. *)
Definition noNumber (a : field) : bool :=
  match a with
  | num _ => false
  | _ => true
  end.

End Controls.

(** ** Further notions used by the properties *)

(** The parameters with other [peRatio] and [baseRate] inputs. *)
Definition withPeAndBaseRate (pe base : option number) (p : SynthesisParameters.t)
    : SynthesisParameters.t :=
  SynthesisParameters.mk
    (SynthesisParameters.modelType p) (SynthesisParameters.assetClass p)
    (SynthesisParameters.initialValue p) (SynthesisParameters.timeHorizon p)
    (SynthesisParameters.dt p) (SynthesisParameters.mu p) (SynthesisParameters.sigma p)
    (SynthesisParameters.kappa p) (SynthesisParameters.theta p)
    (SynthesisParameters.correlations p) (SynthesisParameters.dividendYield p)
    pe (SynthesisParameters.expectedEarnings p)
    (SynthesisParameters.foreignRate p) (SynthesisParameters.domesticRate p)
    (SynthesisParameters.convenienceYield p) (SynthesisParameters.storageCost p)
    (SynthesisParameters.seasonalAmplitude p) (SynthesisParameters.creditSpread p)
    (SynthesisParameters.cdsSpread p) base
    (SynthesisParameters.strikePrice p) (SynthesisParameters.riskFreeRate p)
    (SynthesisParameters.expiryTime p) (SynthesisParameters.isCall p)
    (SynthesisParameters.impliedVol p) (SynthesisParameters.lambda p)
    (SynthesisParameters.jumpMu p) (SynthesisParameters.jumpSigma p).

(** What a run returns apart from the echoed parameters. *)
Definition pathAndSummary (r : option (SynthesisResult.t * list number))
    : option (list DataPoint.t * Summary.t * list number) :=
  match r with
  | Some (res, tape') => Some (SynthesisResult.data res, SynthesisResult.summary res, tape')
  | None => None
  end.

(** The next state of the linear mean-reversion (Vasicek) case of [evolve]. *)
Definition vasicekNext (l : Locals.t) (spot eps : number) : number :=
  spot + Locals.kappa l * (Locals.theta l - spot) * Locals.dt l
  + Locals.sigma l * sqrt (Locals.dt l) * eps.

(** The [d1] and [d2] of [calculateBlackSwaption], and its annuity factor. *)
Definition blackD1 (F K T sigma : number) : number :=
  (ln (F / K) + (sigma * sigma / 2.0) * T) / (sigma * sqrt T).

Definition blackD2 (F K T sigma : number) : number :=
  blackD1 F K T sigma - sigma * sqrt T.

Definition annuityFactor (r : number) : number := (1 - exp (- r * 5)) / r.

(** A tape of [n] draws, all zero. *)
Definition zeroDraws (n : nat) : list number := repeat 0 n.

(** The last Path Point of an option run, with its Greeks. *)
Definition sampleOptionPoint : DataPoint.t :=
  DataPoint.mk 1 "2026-11-03" 10.45 (Some 100) (Some 100) None None (Some 100)
    (Some (Greeks.mk 0.64 0.02 0.38 (-6.3) 0.53)).

(** Parameters whose time horizon is negative. *)
Definition negativeHorizon : SynthesisParameters.t :=
  requiredOnly EQUITY_GBM EQUITY 100 (-1) (1 / 252).

(** A commodity run with a seasonal amplitude of 5. *)
Definition seasonalCommodity : SynthesisParameters.t :=
  SynthesisParameters.mk MACRO_INFLATION COMMODITY 80 1 (1 / 252)
    None None None None None None None None None None None None (Some 5) None None
    None None None None None None None None None.

(** An unemployment-rate run that starts at 4. *)
Definition unemploymentRun : SynthesisParameters.t :=
  requiredOnly OU_PROCESS UNEMPLOYMENT_RATE 4 1 (1 / 252).

(** A short-rate run under the linear mean-reversion model, without
    volatility. *)
Definition noiselessVasicek : SynthesisParameters.t :=
  SynthesisParameters.mk INTEREST_RATE_VASICEK CENTRAL_BANK_RATE 0.03 1 (1 / 252)
    None (Some 0) None None None None None None None None None None None None None
    None None None None None None None None None.


(** A short-rate run under the square-root model without volatility. *)
Definition noiselessCir : SynthesisParameters.t :=
  SynthesisParameters.mk INTEREST_RATE_CIR CENTRAL_BANK_RATE 0.03 1 (1 / 252)
    None (Some 0) None None None None None None None None None None None None None
    None None None None None None None None None.

(** A swap whose strike is given as zero. *)
Definition zeroStrikeSwap : SynthesisParameters.t :=
  SynthesisParameters.mk INTEREST_RATE_VASICEK SWAP 0.04 1 (1 / 252)
    None None None None None None None None None None None None None None None
    None (Some 0) None None None None None None None.

(** * Properties *)

(** ** The random source *)

Lemma bind_Some {A B : Type} (c : Rand A) (k : A -> Rand B) tape b tape' :
  bind c k tape = Some (b, tape') <->
  exists a tape1, c tape = Some (a, tape1) /\ k a tape1 = Some (b, tape').
Proof.
  unfold bind. split.
  - destruct (c tape) as [[a tape1]|]; [|discriminate].
    intros Hk. exists a, tape1. split; [reflexivity|exact Hk].
  - intros (a & tape1 & Hc & Hk). rewrite Hc. exact Hk.
Qed.








Lemma Enough_ret {A : Type} (a : A) : Enough 0 (ret a).
Proof.
  intros tape _. exists a, tape. split; [reflexivity|lia].
Qed.

Lemma Enough_bind {A B : Type} (c : Rand A) (k : A -> Rand B) n m :
  Enough n c -> (forall a, Enough m (k a)) -> Enough (n + m) (bind c k).
Proof.
  intros Hc Hk tape Hn.
  destruct (Hc tape) as (a & tape1 & H1 & L1); [lia|].
  destruct (Hk a tape1) as (b & tape2 & H2 & L2); [lia|].
  exists b, tape2. split.
  - apply bind_Some. now exists a, tape1.
  - lia.
Qed.

Lemma Enough_more {A : Type} (c : Rand A) n m :
  Enough n c -> (n <= m)%nat -> Enough m c.
Proof.
  intros Hc Hle tape Hm.
  destruct (Hc tape) as (a & tape' & H & L); [lia|].
  exists a, tape'. split; [exact H|lia].
Qed.

Lemma Enough_random : Enough 1 random.
Proof.
  intros [|u tape] Hn; simpl in Hn; [lia|].
  exists u, tape. split; [reflexivity|].
  simpl. destruct (Req_dec_T u 0); lia.
Qed.

Lemma Enough_redrawWhileZero : Enough 1 redrawWhileZero.
Proof.
  intros tape. induction tape as [|u tape IH]; simpl; intros Hn; [lia|].
  destruct (Req_dec_T u 0) as [Hz|Hnz].
  - apply IH, Hn.
  - exists u, tape. split; [reflexivity|lia].
Qed.

Lemma Enough_getStandardNormal : Enough 2 getStandardNormal.
Proof.
  unfold getStandardNormal.
  apply (Enough_bind _ _ 1 1); [apply Enough_redrawWhileZero|intros u].
  apply (Enough_bind _ _ 1 0); [apply Enough_redrawWhileZero|intros v].
  apply Enough_ret.
Qed.

(** The recursion on the tape is the loop of the source: draw, and draw
    again while the draw is zero. *)
Lemma redrawWhileZero_loop tape :
  redrawWhileZero tape
  = bind random (fun u => if Req_dec_T u 0 then redrawWhileZero else ret u) tape.
Proof.
  destruct tape as [|u tape]; [reflexivity|].
  unfold bind, random. simpl. destruct (Req_dec_T u 0); reflexivity.
Qed.

Lemma redrawWhileZero_nonzero (u : number) tape :
  u <> 0 -> redrawWhileZero (u :: tape) = Some (u, tape).
Proof.
  intros Hu. simpl. destruct (Req_dec_T u 0); [contradiction|reflexivity].
Qed.

Lemma getStandardNormal_draws (u v : number) tape :
  u <> 0 -> v <> 0 ->
  getStandardNormal (u :: v :: tape) = Some (boxMuller u v, tape).
Proof.
  intros Hu Hv. unfold getStandardNormal, bind.
  rewrite (redrawWhileZero_nonzero u) by exact Hu.
  rewrite (redrawWhileZero_nonzero v) by exact Hv.
  reflexivity.
Qed.

(** ** The loop *)

Section Loop.

Variable h : JSDate.Host.
Variable l : Locals.t.
Variables pv mu rho : number.
Variable startDate : JSDate.Date.


Lemma Enough_evolve spot eps : Enough 3 (evolve l mu spot eps).
Proof.
  unfold evolve.
  destruct (Locals.modelType l);
    try (apply (Enough_more _ 0); [apply Enough_ret|lia]).
  apply (Enough_bind _ _ 1 2); [apply Enough_random|intros u].
  apply (Enough_bind _ _ 2 0); [|intros jf; apply Enough_ret].
  destruct (Rlt_dec u _).
  - apply (Enough_bind _ _ 2 0); [apply Enough_getStandardNormal|].
    intros z. apply Enough_ret.
  - apply (Enough_more _ 0); [apply Enough_ret|lia].
Qed.


Lemma Enough_iteration i st : Enough 7 (iteration h l pv mu rho startDate i st).
Proof.
  unfold iteration.
  apply (Enough_bind _ _ 2 5); [apply Enough_getStandardNormal|intros Zm].
  apply (Enough_bind _ _ 2 3); [apply Enough_getStandardNormal|intros Zi].
  apply (Enough_bind _ _ 3 0); [apply Enough_evolve|intros spot'; apply Enough_ret].
Qed.

Lemma iteration_Some i st tape st1 tape1 :
  iteration h l pv mu rho startDate i st tape = Some (st1, tape1) ->
  exists Zm Zi t t',
    evolve l mu (currentSpot st) (coupledShock rho Zm Zi) t = Some (currentSpot st1, t')
    /\ marketProxy st1 = nextMarketProxy l (marketProxy st) Zm
    /\ data st1
       = data st ++ [pathPoint h l pv startDate i (currentSpot st) (marketProxy st)].
Proof.
  unfold iteration. intros H.
  apply bind_Some in H as (Zm & t1 & _ & H).
  apply bind_Some in H as (Zi & t2 & _ & H).
  apply bind_Some in H as (spot' & t3 & Hev & H).
  injection H as <- <-. simpl.
  exists Zm, Zi, t2, t3. repeat split. exact Hev.
Qed.


Lemma Enough_forLoop count : forall i st,
  Enough (7 * count) (forLoop h l pv mu rho startDate count i st).
Proof.
  induction count as [|count IH]; intros i st; simpl forLoop.
  - apply Enough_ret.
  - replace (7 * S count)%nat with (7 + 7 * count)%nat by lia.
    apply Enough_bind; [apply Enough_iteration|intros st'; apply IH].
Qed.

(** What the loop pushes is a path from its starting state, one Path
    Point per pass. *)
Lemma forLoop_path count : forall i st tape st' tape',
  forLoop h l pv mu rho startDate count i st tape = Some (st', tape') ->
  exists pts,
    data st' = data st ++ pts
    /\ List.length pts = count
    /\ PathFrom h l pv mu rho startDate i (currentSpot st) (marketProxy st) pts.
Proof.
  induction count as [|count IH]; intros i st tape st' tape' H; simpl in H.
  - injection H as <- <-. exists []. rewrite app_nil_r.
    repeat split. constructor.
  - apply bind_Some in H as (st1 & tape1 & Hit & Hloop).
    apply iteration_Some in Hit as (Zm & Zi & t & t' & Hev & Hproxy & Hdata).
    apply IH in Hloop as (pts & Hpts & Hlen & Hpath).
    exists (pathPoint h l pv startDate i (currentSpot st) (marketProxy st) :: pts).
    split; [|split].
    + rewrite Hpts, Hdata, <- app_assoc. reflexivity.
    + simpl. now rewrite Hlen.
    + econstructor; [exact Hev|]. rewrite <- Hproxy. exact Hpath.
Qed.

End Loop.

(** The run of [params] on the host [h] returned [res], consuming a
    prefix of [tape]. *)
Lemma generate_Some h params tape res tape' :
  generateSynthesizedData h params tape = Some (res, tape') ->
  let l := destructure params in
  SynthesisResult.parameters res = params
  /\ SynthesisResult.summary res
     = calculateSummary (map DataPoint.value (SynthesisResult.data res))
  /\ List.length (SynthesisResult.data res) = passes (Locals.timeHorizon l)
  /\ PathFrom h l (pricingVol l) (effectiveMu l) (aggregateRho l) (JSDate.now h)
       0%Z (Locals.initialValue l) (Locals.initialValue l) (SynthesisResult.data res).
Proof.
  intros H l. unfold generateSynthesizedData in H.
  apply bind_Some in H as (st & tape1 & Hloop & H).
  injection H as <- <-. simpl.
  apply forLoop_path in Hloop as (pts & Hpts & Hlen & Hpath).
  simpl in Hpts. subst pts. fold l in Hlen, Hpath.
  repeat split; assumption.
Qed.


Lemma Enough_generate h params :
  Enough (7 * passes (SynthesisParameters.timeHorizon params))
    (generateSynthesizedData h params).
Proof.
  unfold generateSynthesizedData.
  replace (7 * passes (SynthesisParameters.timeHorizon params))%nat
    with (7 * passes (Locals.timeHorizon (destructure params)) + 0)%nat
    by (simpl; lia).
  apply Enough_bind; [apply Enough_forLoop|intros st; apply Enough_ret].
Qed.

(** ** Path Points *)

Lemma setDate_getDate h d i :
  JSDate.setDate h d (JSDate.getDate h d + i) = JSDate.sameClockAfter h d i.
Proof.
  unfold JSDate.setDate, JSDate.getDate, JSDate.sameClockAfter. f_equal.
  unfold JSDate.MakeDayInMonthOf, JSDate.MakeDate, JSDate.TimeWithinDay, JSDate.Day,
    JSDate.addDays.
  set (t := JSDate.LocalTime h d).
  assert (Ht : (t = JSDate.msPerDay * (t / JSDate.msPerDay) + t mod JSDate.msPerDay)%Z).
  { apply Z.div_mod. unfold JSDate.msPerDay. lia. }
  lia.
Qed.

Lemma pathPoint_index h l pv sd i spot proxy :
  DataPoint.index (pathPoint h l pv sd i spot proxy) = i.
Proof. unfold pathPoint. destruct (Locals.assetClass l); reflexivity. Qed.

Lemma Day_addDays d i : JSDate.Day (JSDate.addDays d i) = (JSDate.Day d + i)%Z.
Proof.
  unfold JSDate.Day, JSDate.addDays. apply Z.div_add.
  unfold JSDate.msPerDay. lia.
Qed.

(** The date of a Path Point is the UTC date of the instant at which the
    local clock reads, [i] local days later, what it read at the start. *)
Lemma pathPoint_timestamp h l pv sd i spot proxy :
  DataPoint.timestamp (pathPoint h l pv sd i spot proxy)
  = JSDate.toISODate (JSDate.sameClockAfter h sd i).
Proof.
  unfold pathPoint. rewrite setDate_getDate.
  destruct (Locals.assetClass l); reflexivity.
Qed.

(** When the zone has at that instant the offset it had at the start, this
    is the date of the start plus [i] days. *)
Lemma sameClockAfter_same_offset h sd i :
  JSDate.LocalTZA h (JSDate.addDays (JSDate.LocalTime h sd) i) false
  = JSDate.LocalTZA h sd true ->
  JSDate.toISODate (JSDate.sameClockAfter h sd i)
  = JSDate.isoDateOfDay (JSDate.Day sd + i).
Proof.
  intros Hoff. unfold JSDate.toISODate, JSDate.sameClockAfter, JSDate.UTC.
  rewrite Hoff. unfold JSDate.LocalTime, JSDate.addDays.
  replace (sd + JSDate.LocalTZA h sd true + i * JSDate.msPerDay
           - JSDate.LocalTZA h sd true)%Z
    with (JSDate.addDays sd i) by (unfold JSDate.addDays; lia).
  now rewrite Day_addDays.
Qed.

Lemma pathPoint_underlying h l pv sd i spot proxy :
  DataPoint.underlyingValue (pathPoint h l pv sd i spot proxy) = Some spot.
Proof. unfold pathPoint. destruct (Locals.assetClass l); reflexivity. Qed.

Lemma pathPoint_benchmark h l pv sd i spot proxy :
  DataPoint.benchmarkValue (pathPoint h l pv sd i spot proxy) = Some proxy.
Proof. unfold pathPoint. destruct (Locals.assetClass l); reflexivity. Qed.

(** The [k]-th Path Point of a path from pass [i] is the Path Point of
    pass [i + k]. *)
Lemma PathFrom_nth h l pv mu rho sd i spot proxy pts :
  PathFrom h l pv mu rho sd i spot proxy pts ->
  forall k pt, nth_error pts k = Some pt ->
    exists spot' proxy', pt = pathPoint h l pv sd (i + Z.of_nat k) spot' proxy'.
Proof.
  induction 1 as [|i spot proxy Zm Zi tape spot' tape' rest Hev Hrest IH];
    intros k pt Hk.
  - destruct k; discriminate.
  - destruct k as [|k]; simpl in Hk.
    + injection Hk as <-. exists spot, proxy. f_equal. lia.
    + apply IH in Hk as (s & p & ->). exists s, p. f_equal. lia.
Qed.

Lemma passes_length (timeHorizon : Z) :
  (0 <= timeHorizon)%Z -> Z.of_nat (passes timeHorizon) = (timeHorizon + 1)%Z.
Proof. intros H. unfold passes. lia. Qed.

(** A run that is given enough draws returns one Path Point per pass,
    each with the index of its pass. *)
Lemma run_indices h params tape :
  (0 <= SynthesisParameters.timeHorizon params)%Z ->
  (7 * passes (SynthesisParameters.timeHorizon params) <= nonzeroDraws tape)%nat ->
  exists res tape',
    generateSynthesizedData h params tape = Some (res, tape')
    /\ Z.of_nat (List.length (SynthesisResult.data res))
       = (SynthesisParameters.timeHorizon params + 1)%Z
    /\ forall i, (0 <= i <= SynthesisParameters.timeHorizon params)%Z ->
         exists pt spot proxy,
           nth_error (SynthesisResult.data res) (Z.to_nat i) = Some pt
           /\ pt = pathPoint h (destructure params) (pricingVol (destructure params))
                     (JSDate.now h) i spot proxy.
Proof.
  intros Hvalid Hdraws.
  destruct (Enough_generate h params tape Hdraws) as (res & tape' & Hrun & _).
  exists res, tape'. split; [exact Hrun|].
  apply generate_Some in Hrun as (_ & _ & Hlen & Hpath). simpl in Hlen.
  assert (Hlen' : Z.of_nat (List.length (SynthesisResult.data res))
                  = (SynthesisParameters.timeHorizon params + 1)%Z).
  { rewrite Hlen. apply passes_length. lia. }
  split; [exact Hlen'|].
  intros i Hi.
  destruct (nth_error (SynthesisResult.data res) (Z.to_nat i)) as [pt|] eqn:Hnth.
  - destruct (PathFrom_nth _ _ _ _ _ _ _ _ _ _ Hpath _ _ Hnth) as (s & p & ->).
    replace (0 + Z.of_nat (Z.to_nat i))%Z with i by lia.
    exists (pathPoint h (destructure params) (pricingVol (destructure params))
              (JSDate.now h) i s p), s, p.
    split; reflexivity.
  - apply nth_error_None in Hnth. lia.
Qed.

Lemma nonzeroDraws_halves n : nonzeroDraws (halves n) = n.
Proof.
  unfold halves. induction n as [|n IH]; simpl; [reflexivity|].
  destruct (Req_dec_T (1 / 2) 0) as [Hz|_]; [lra|]. now rewrite IH.
Qed.

(** C1, on a host whose zone moves its clocks forward between the first
    two passes: the run returns its [timeHorizon + 1] Path Points with the
    indices 0, 1, ..., but the Path Points of index 0 and of index 1 carry
    the same date, 2027-03-14, where the date of the start plus one day is
    2027-03-15.  [setDate] moves the local clock reading one local day on,
    which is then only 23 hours later, and [toISOString] prints the UTC
    date of that instant. *)
Theorem dates_repeat_when_clocks_change :
  exists res tape',
    generateSynthesizedData springForwardHost twoStepEquity (halves 14)
    = Some (res, tape')
    /\ Z.of_nat (List.length (SynthesisResult.data res))
       = (SynthesisParameters.timeHorizon twoStepEquity + 1)%Z
    /\ exists p0 p1,
         nth_error (SynthesisResult.data res) 0 = Some p0
         /\ nth_error (SynthesisResult.data res) 1 = Some p1
         /\ DataPoint.index p0 = 0%Z
         /\ DataPoint.index p1 = 1%Z
         /\ DataPoint.timestamp p0 = "2027-03-14"%string
         /\ DataPoint.timestamp p1 = "2027-03-14"%string
         /\ JSDate.isoDateOfDay (JSDate.Day (JSDate.now springForwardHost) + 1)
            = "2027-03-15"%string.
Proof.
  assert (H1 : (0 <= SynthesisParameters.timeHorizon twoStepEquity)%Z)
    by (simpl; lia).
  assert (H2 : (7 * passes (SynthesisParameters.timeHorizon twoStepEquity)
                <= nonzeroDraws (halves 14))%nat)
    by (rewrite nonzeroDraws_halves; simpl; lia).
  destruct (run_indices springForwardHost twoStepEquity (halves 14) H1 H2)
    as (res & tape' & Hrun & Hlen & Hpts).
  exists res, tape'. split; [exact Hrun|]. split; [exact Hlen|].
  destruct (Hpts 0%Z) as (p0 & s0 & m0 & Hn0 & ->); [simpl; lia|].
  destruct (Hpts 1%Z) as (p1 & s1 & m1 & Hn1 & ->); [simpl; lia|].
  eexists _, _. split; [exact Hn0|]. split; [exact Hn1|].
  rewrite !pathPoint_index, !pathPoint_timestamp.
  repeat split; vm_compute; reflexivity.
Qed.

(** ** Evaluating a pass on given draws *)

Lemma sqrt_of_square (a b : number) : 0 <= a -> a * a = b -> sqrt b = a.
Proof. intros Ha <-. now apply sqrt_square. Qed.

Lemma coupledShock_uncorrelated Zm Zi : coupledShock 0 Zm Zi = Zi.
Proof.
  unfold coupledShock.
  replace (1 - 0 * 0) with 1 by lra. rewrite sqrt_1. lra.
Qed.

Lemma boxMuller_exp_half (a : number) :
  0 <= a -> boxMuller (exp (- (a * a / 2))) (1 / 2) = - a.
Proof.
  intros Ha. unfold boxMuller. rewrite ln_exp.
  replace (-2.0 * - (a * a / 2)) with (a * a) by lra.
  rewrite sqrt_square by exact Ha.
  replace (2.0 * PI * (1 / 2)) with PI by lra.
  rewrite cos_PI. lra.
Qed.

Lemma iteration_draws h l pv mu rho sd i st um vm ui vi tape spot' tape' :
  um <> 0 -> vm <> 0 -> ui <> 0 -> vi <> 0 ->
  evolve l mu (currentSpot st)
    (coupledShock rho (boxMuller um vm) (boxMuller ui vi)) tape = Some (spot', tape') ->
  iteration h l pv mu rho sd i st (um :: vm :: ui :: vi :: tape)
  = Some (mkLoopState spot' (nextMarketProxy l (marketProxy st) (boxMuller um vm))
            (data st ++ [pathPoint h l pv sd i (currentSpot st) (marketProxy st)]),
          tape').
Proof.
  intros Hum Hvm Hui Hvi Hev. unfold iteration, bind.
  rewrite (getStandardNormal_draws um vm) by assumption.
  rewrite (getStandardNormal_draws ui vi) by assumption.
  rewrite Hev. reflexivity.
Qed.

Lemma evolve_cir l mu spot eps tape :
  Locals.modelType l = INTEREST_RATE_CIR ->
  evolve l mu spot eps tape = Some (cirNext l spot eps, tape).
Proof. intros Hm. unfold evolve. rewrite Hm. reflexivity. Qed.

Lemma half_nonzero : 1 / 2 <> 0.
Proof. lra. Qed.

Lemma exp_nonzero (x : number) : exp x <> 0.
Proof. pose proof (exp_pos x). lra. Qed.

Lemma sqrt_daily_step : 1 / 16 < sqrt (1 / 252).
Proof.
  rewrite <- (sqrt_of_square (1 / 16) (1 / 256)) by lra.
  apply sqrt_lt_1; lra.
Qed.

(** What the floor does give: the level under the square root is at least
    0.0001, and a pass without a downward shock keeps the state
    non-negative when theta >= 0 and 0 <= kappa * dt <= 1. *)
Lemma cirNext_without_downward_shock l spot eps :
  0 <= Locals.theta l ->
  0 <= Locals.kappa l * Locals.dt l <= 1 ->
  0 <= Locals.sigma l * sqrt (Locals.dt l) * eps ->
  0.0001 <= Rmax spot 0.0001 /\ 0 <= cirNext l spot eps.
Proof.
  intros Htheta Hkdt Hshock.
  pose proof (Rmax_r spot 0.0001) as Hfloor.
  split; [exact Hfloor|].
  unfold cirNext.
  set (L := Rmax spot 0.0001) in *.
  pose proof (sqrt_pos L) as HsL.
  replace (L + Locals.kappa l * (Locals.theta l - L) * Locals.dt l
           + Locals.sigma l * sqrt L * sqrt (Locals.dt l) * eps)
    with (L * (1 - Locals.kappa l * Locals.dt l)
          + Locals.kappa l * Locals.dt l * Locals.theta l
          + Locals.sigma l * sqrt (Locals.dt l) * eps * sqrt L) by ring.
  assert (0 <= L * (1 - Locals.kappa l * Locals.dt l)) by nra.
  assert (0 <= Locals.kappa l * Locals.dt l * Locals.theta l) by nra.
  assert (0 <= Locals.sigma l * sqrt (Locals.dt l) * eps * sqrt L) by nra.
  lra.
Qed.

(** C2, at a failing input: a short-rate run under the square-root model
    with target level 0.05 >= 0 (and 2 * kappa * theta >= sigma^2), whose
    first idiosyncratic shock is -3, records a strictly negative raw
    underlying state in the Path Point of index 1. *)
Theorem cir_state_goes_negative :
  exists res tape',
    generateSynthesizedData sampleHost cirParams cirTape = Some (res, tape')
    /\ Locals.modelType (destructure cirParams) = INTEREST_RATE_CIR
    /\ 0 <= Locals.theta (destructure cirParams)
    /\ exists pt x,
         nth_error (SynthesisResult.data res) 1 = Some pt
         /\ DataPoint.underlyingValue pt = Some x
         /\ x < 0.
Proof.
  set (l := destructure cirParams).
  set (x := cirNext l 0.0025 (-3)).
  assert (Hx : x < 0).
  { unfold x, cirNext, l. simpl.
    unfold Rmax. destruct (Rle_dec 0.0025 0.0001) as [Hle|_]; [lra|].
    rewrite (sqrt_of_square 0.05 0.0025) by lra.
    pose proof sqrt_daily_step. lra. }
  unfold generateSynthesizedData, bind. fold l.
  replace (aggregateRho l) with 0 by reflexivity.
  replace (passes (Locals.timeHorizon l)) with 2%nat by reflexivity.
  unfold cirTape, halves. simpl repeat. simpl app.
  simpl forLoop. unfold bind.
  erewrite iteration_draws;
    try apply half_nonzero; try apply exp_nonzero;
    [|apply evolve_cir; reflexivity].
  erewrite iteration_draws;
    try apply half_nonzero; [|apply evolve_cir; reflexivity].
  simpl currentSpot.
  rewrite coupledShock_uncorrelated.
  replace (exp (- (9 / 2))) with (exp (- (3 * 3 / 2))) by (f_equal; lra).
  rewrite boxMuller_exp_half by lra.
  replace (Locals.initialValue l) with 0.0025 by reflexivity.
  fold x.
  eexists. eexists. split; [reflexivity|].
  split; [reflexivity|]. split; [simpl; lra|].
  simpl SynthesisResult.data.
  eexists. exists x. split; [reflexivity|].
  split; [apply pathPoint_underlying|exact Hx].
Qed.

(** ** The option pricer at and near expiry *)

Lemma sqrt_two_PI_pos : 0 < sqrt (2 * PI).
Proof. apply sqrt_lt_R0. pose proof PI_RGT_0. lra. Qed.

Lemma normalPDF_pos (x : number) : 0 < normalPDF x.
Proof.
  unfold normalPDF. apply Rmult_lt_0_compat; [|apply exp_pos].
  apply Rdiv_lt_0_compat; [lra|apply sqrt_two_PI_pos].
Qed.


(** Past the expiry guard the pricer evaluates the closed form, whose
    vega is strictly positive for a positive spot. *)
Lemma calculateBS_vega_pos (S K T r sigma : number) (isCall : bool) :
  0 < S -> 0 < T -> 0 < Greeks.vega (greeks (calculateBS S K T r sigma isCall)).
Proof.
  intros HS HT. unfold calculateBS.
  destruct (Rle_dec T 0) as [Hle|_]; [lra|]. simpl.
  apply Rmult_lt_0_compat; [|now apply sqrt_lt_R0].
  apply Rmult_lt_0_compat; [exact HS|apply normalPDF_pos].
Qed.

(** C3, as stated, fails at the floored epsilon: one year into a one-year
    option the loop passes T = 0.0001, and the vega returned for an
    at-the-money call is not zero. *)
Lemma calculateBS_at_floor_vega_nonzero :
  Rmax 0.0001 (1.0 - (IZR 365 / 365)) = 0.0001
  /\ Greeks.vega
       (greeks (calculateBS 100 100 (Rmax 0.0001 (1.0 - (IZR 365 / 365))) 0.03 0.2 true))
     <> 0.
Proof.
  assert (HT : Rmax 0.0001 (1.0 - (IZR 365 / 365)) = 0.0001).
  { apply Rmax_left. lra. }
  split; [exact HT|]. rewrite HT.
  apply Rgt_not_eq, calculateBS_vega_pos; lra.
Qed.

(** C3, amended: when the option pricer is invoked with T <= 0, the price
    is the intrinsic payoff (max(0, S - K) for a call, max(0, K - S) for a
    put), delta is 1 for a call with S > K, -1 for a put with S < K and 0
    otherwise, and gamma, vega, theta and rho are exactly zero. *)
Theorem calculateBS_at_expiry (S K T r sigma : number) (isCall : bool) :
  T <= 0 ->
  let bs := calculateBS S K T r sigma isCall in
  price bs = (if isCall then Rmax 0 (S - K) else Rmax 0 (K - S))
  /\ (isCall = true -> S > K -> Greeks.delta (greeks bs) = 1)
  /\ (isCall = true -> S <= K -> Greeks.delta (greeks bs) = 0)
  /\ (isCall = false -> S < K -> Greeks.delta (greeks bs) = -1)
  /\ (isCall = false -> S >= K -> Greeks.delta (greeks bs) = 0)
  /\ Greeks.gamma (greeks bs) = 0
  /\ Greeks.vega (greeks bs) = 0
  /\ Greeks.theta (greeks bs) = 0
  /\ Greeks.rho (greeks bs) = 0.
Proof.
  intros HT bs. subst bs. unfold calculateBS.
  destruct (Rle_dec T 0) as [_|Hgt]; [|contradiction]. simpl.
  split; [destruct isCall; reflexivity|].
  repeat split; intros -> HSK.
  - destruct (Rgt_dec S K); [reflexivity|contradiction].
  - destruct (Rgt_dec S K); [lra|reflexivity].
  - destruct (Rlt_dec S K); [reflexivity|contradiction].
  - destruct (Rlt_dec S K); [lra|reflexivity].
Qed.

Lemma calculateBS_at_expiry_witness :
  0 <= 0
  /\ price (calculateBS 110 100 0 0.03 0.2 true) = Rmax 0 (110 - 100)
  /\ Greeks.delta (greeks (calculateBS 110 100 0 0.03 0.2 true)) = 1
  /\ Greeks.vega (greeks (calculateBS 110 100 0 0.03 0.2 true)) = 0.
Proof.
  assert (H0 : 0 <= 0) by lra.
  destruct (calculateBS_at_expiry 110 100 0 0.03 0.2 true H0)
    as (Hp & Hd & _ & _ & _ & _ & Hv & _).
  split; [exact H0|]. split; [exact Hp|]. split; [|exact Hv].
  apply Hd; [reflexivity|lra].
Defined.

(** ** The correlation coupler *)

(** C9: the coupled shock is the market shock for rho = 1, the
    idiosyncratic shock for rho = 0 and the negated market shock for
    rho = -1. *)
Theorem coupledShock_extremes (Zm Zi : number) :
  coupledShock 1 Zm Zi = Zm
  /\ coupledShock 0 Zm Zi = Zi
  /\ coupledShock (-1) Zm Zi = - Zm.
Proof.
  split; [|split].
  - unfold coupledShock. replace (1 - 1 * 1) with 0 by lra. rewrite sqrt_0. lra.
  - apply coupledShock_uncorrelated.
  - unfold coupledShock. replace (1 - -1 * -1) with 0 by lra. rewrite sqrt_0. lra.
Qed.

(** ** Quantities derived once per run *)

Lemma effectiveMu_by_spec (l : Locals.t) : effectiveMu l = driftBySpec l.
Proof.
  unfold effectiveMu, driftBySpec. destruct (Locals.assetClass l); reflexivity.
Qed.

(** C7: the effective drift is the function of the asset class that the
    specification words -- mu - dividendYield for equities,
    mu + (domesticRate - foreignRate) for FX,
    mu + (storageCost - convenienceYield) for commodities,
    riskFreeRate - dividendYield for forwards and futures, 0 for the
    unemployment rate and mu for every other class -- and a run evolves
    the state with that one value at every pass. *)
Theorem effective_drift_once_per_run (h : JSDate.Host) (params : SynthesisParameters.t)
    (tape : list number) :
  (7 * passes (SynthesisParameters.timeHorizon params) <= nonzeroDraws tape)%nat ->
  let l := destructure params in
  effectiveMu l = driftBySpec l
  /\ exists res tape',
       generateSynthesizedData h params tape = Some (res, tape')
       /\ PathFrom h l (pricingVol l) (driftBySpec l) (aggregateRho l) (JSDate.now h)
            0%Z (Locals.initialValue l) (Locals.initialValue l)
            (SynthesisResult.data res).
Proof.
  intros Hdraws l. split; [apply effectiveMu_by_spec|].
  destruct (Enough_generate h params tape Hdraws) as (res & tape' & Hrun & _).
  exists res, tape'. split; [exact Hrun|].
  apply generate_Some in Hrun as (_ & _ & _ & Hpath).
  rewrite <- effectiveMu_by_spec. exact Hpath.
Qed.

Lemma driftBySpec_INITIAL_PARAMS :
  driftBySpec (destructure INITIAL_PARAMS) = 0.08 - 0.02.
Proof. reflexivity. Qed.

Lemma effective_drift_once_per_run_witness :
  (7 * passes (SynthesisParameters.timeHorizon INITIAL_PARAMS)
   <= nonzeroDraws (halves 2562))%nat
  /\ effectiveMu (destructure INITIAL_PARAMS) = 0.08 - 0.02
  /\ exists res tape',
       generateSynthesizedData sampleHost INITIAL_PARAMS (halves 2562) = Some (res, tape')
       /\ PathFrom sampleHost (destructure INITIAL_PARAMS)
            (pricingVol (destructure INITIAL_PARAMS))
            (driftBySpec (destructure INITIAL_PARAMS))
            (aggregateRho (destructure INITIAL_PARAMS)) (JSDate.now sampleHost)
            0%Z (Locals.initialValue (destructure INITIAL_PARAMS))
            (Locals.initialValue (destructure INITIAL_PARAMS))
            (SynthesisResult.data res).
Proof.
  assert (H : (7 * passes (SynthesisParameters.timeHorizon INITIAL_PARAMS)
               <= nonzeroDraws (halves 2562))%nat)
    by (rewrite nonzeroDraws_halves; simpl; lia).
  destruct (effective_drift_once_per_run sampleHost INITIAL_PARAMS (halves 2562) H)
    as (Hmu & Hrun).
  split; [exact H|]. split; [|exact Hrun].
  rewrite Hmu. apply driftBySpec_INITIAL_PARAMS.
Defined.

Lemma jsOr_zero (v : number) : jsOr v 0 = v.
Proof. unfold jsOr. destruct (Req_dec_T v 0) as [->|_]; reflexivity. Qed.

Lemma clamp_bounds (x : number) : -1 <= clamp x <= 1.
Proof.
  unfold clamp. split; [apply Rmax_l|].
  apply Rmax_lub; [lra|apply Rmin_l].
Qed.

Lemma aggregateRho_by_spec (l : Locals.t) :
  aggregateRho l = rhoBySpec (Locals.correlations l).
Proof.
  unfold aggregateRho, rhoBySpec, CorrelationKeys.keys, noFactors, factorSum, clamp.
  destruct (Locals.correlations l) as [[e|] [r|] [v|] [c|]];
    cbn -[Rmax Rmin]; rewrite ?jsOr_zero; try reflexivity;
    unfold coefficient, withDefault; do 2 f_equal; lra.
Qed.

Lemma rhoBySpec_bounds (c : CorrelationFactors.t) : -1 <= rhoBySpec c <= 1.
Proof.
  unfold rhoBySpec. destruct (noFactors c); [lra|].
  apply clamp_bounds.
Qed.

(** C8: the aggregate correlation coefficient is the sum of the named
    factor coefficients clamped to [-1, 1], and 0 when no factors are
    given; a run couples the shocks of every pass with that one value;
    1 - rho^2 is not negative, so the square root in the coupled shock is
    that of a non-negative number. *)
Theorem aggregate_rho_once_per_run (h : JSDate.Host) (params : SynthesisParameters.t)
    (tape : list number) :
  (7 * passes (SynthesisParameters.timeHorizon params) <= nonzeroDraws tape)%nat ->
  let l := destructure params in
  let rho := rhoBySpec (Locals.correlations l) in
  aggregateRho l = rho
  /\ -1 <= rho <= 1
  /\ 0 <= 1 - rho * rho
  /\ sqrt (1 - rho * rho) * sqrt (1 - rho * rho) = 1 - rho * rho
  /\ exists res tape',
       generateSynthesizedData h params tape = Some (res, tape')
       /\ PathFrom h l (pricingVol l) (effectiveMu l) rho (JSDate.now h)
            0%Z (Locals.initialValue l) (Locals.initialValue l)
            (SynthesisResult.data res).
Proof.
  intros Hdraws l rho.
  pose proof (rhoBySpec_bounds (Locals.correlations l)) as Hb. fold rho in Hb.
  assert (Hsq : 0 <= 1 - rho * rho) by nra.
  split; [apply aggregateRho_by_spec|].
  split; [exact Hb|]. split; [exact Hsq|].
  split; [now apply sqrt_sqrt|].
  destruct (Enough_generate h params tape Hdraws) as (res & tape' & Hrun & _).
  exists res, tape'. split; [exact Hrun|].
  apply generate_Some in Hrun as (_ & _ & _ & Hpath).
  unfold rho. rewrite <- aggregateRho_by_spec. exact Hpath.
Qed.

Lemma rhoBySpec_INITIAL_PARAMS :
  rhoBySpec (Locals.correlations (destructure INITIAL_PARAMS)) = 0.1.
Proof.
  unfold rhoBySpec. simpl.
  replace (0.7 + -0.2 + -0.5 + 0.1) with 0.1 by lra.
  rewrite Rmin_right by lra. apply Rmax_right. lra.
Qed.

Lemma aggregate_rho_once_per_run_witness :
  (7 * passes (SynthesisParameters.timeHorizon INITIAL_PARAMS)
   <= nonzeroDraws (halves 2562))%nat
  /\ aggregateRho (destructure INITIAL_PARAMS) = 0.1
  /\ exists res tape',
       generateSynthesizedData sampleHost INITIAL_PARAMS (halves 2562) = Some (res, tape').
Proof.
  assert (H : (7 * passes (SynthesisParameters.timeHorizon INITIAL_PARAMS)
               <= nonzeroDraws (halves 2562))%nat)
    by (rewrite nonzeroDraws_halves; simpl; lia).
  destruct (aggregate_rho_once_per_run sampleHost INITIAL_PARAMS (halves 2562) H)
    as (Hrho & _ & _ & _ & res & tape' & Hrun & _).
  split; [exact H|]. split.
  - rewrite Hrho. apply rhoBySpec_INITIAL_PARAMS.
  - exists res, tape'. exact Hrun.
Defined.

(** ** Pricing volatility *)






(** ** The growth model without drift and volatility *)

(** A property of the state that every update keeps holds at every Path
    Point of a path. *)
Lemma PathFrom_invariant h l pv mu rho sd (P : number -> Prop) :
  (forall spot eps tape spot' tape',
      P spot -> evolve l mu spot eps tape = Some (spot', tape') -> P spot') ->
  forall i spot proxy pts,
    PathFrom h l pv mu rho sd i spot proxy pts -> P spot ->
    forall k pt, nth_error pts k = Some pt ->
      exists spot' proxy',
        P spot' /\ pt = pathPoint h l pv sd (i + Z.of_nat k) spot' proxy'.
Proof.
  intros Hkeep i spot proxy pts Hpath.
  induction Hpath as [|i spot proxy Zm Zi tape spot' tape' rest Hev Hrest IH];
    intros HP k pt Hk.
  - destruct k; discriminate.
  - destruct k as [|k]; simpl in Hk.
    + injection Hk as <-. exists spot, proxy. split; [exact HP|]. f_equal. lia.
    + apply Hkeep in Hev; [|exact HP].
      destruct (IH Hev _ _ Hk) as (s & p & Hs & ->).
      exists s, p. split; [exact Hs|]. f_equal. lia.
Qed.

Lemma PathFrom_head h l pv mu rho sd i spot proxy pt rest :
  PathFrom h l pv mu rho sd i spot proxy (pt :: rest) ->
  pt = pathPoint h l pv sd i spot proxy.
Proof. intros H. inversion H. reflexivity. Qed.

Lemma evolve_gbm_flat l mu spot eps tape :
  Locals.modelType l = EQUITY_GBM -> Locals.sigma l = 0 -> mu = 0 ->
  evolve l mu spot eps tape = Some (spot, tape).
Proof.
  intros Hm Hs ->. unfold evolve. rewrite Hm, Hs. unfold ret. do 2 f_equal.
  replace ((0 - 0.5 * 0 ^ 2) * Locals.dt l + 0 * sqrt (Locals.dt l) * eps)
    with 0 by (simpl; lra).
  rewrite exp_0. lra.
Qed.

Lemma seasonalShiftAt_off l i :
  displaysUnderlying l = true -> seasonalShiftAt l i = 0.
Proof.
  unfold displaysUnderlying, seasonalShiftAt.
  destruct (Locals.assetClass l); simpl; try reflexivity; try discriminate;
    destruct (Rgt_dec (Locals.seasonalAmplitude l) 0); try discriminate; reflexivity.
Qed.

Lemma pathPoint_displays_underlying h l pv sd i spot proxy :
  displaysUnderlying l = true ->
  DataPoint.value (pathPoint h l pv sd i spot proxy) = spot.
Proof.
  intros Hd. unfold pathPoint. rewrite (seasonalShiftAt_off l i Hd).
  unfold displaysUnderlying in Hd.
  destruct (Locals.assetClass l); try discriminate; simpl; lra.
Qed.

(** C6, as stated, fails: in the scenario initialValue=100, GBM, mu=0,
    sigma=0, steps=10, dt=1/252 run for the fixed-income asset class, the
    value of the first Path Point is not 100 (it is the yield
    0.03 + 0.01 + 0 + 100). *)
Lemma flat_scenario_fixed_income_value :
  Locals.modelType (destructure (flatScenario FIXED_INCOME)) = EQUITY_GBM
  /\ Locals.mu (destructure (flatScenario FIXED_INCOME)) = 0
  /\ Locals.sigma (destructure (flatScenario FIXED_INCOME)) = 0
  /\ exists res tape',
       generateSynthesizedData sampleHost (flatScenario FIXED_INCOME) (halves 77)
       = Some (res, tape')
       /\ exists pt,
            nth_error (SynthesisResult.data res) 0 = Some pt
            /\ DataPoint.value pt <> 100.
Proof.
  repeat (split; [reflexivity|]).
  destruct (Enough_generate sampleHost (flatScenario FIXED_INCOME) (halves 77))
    as (res & tape' & Hrun & _).
  { rewrite nonzeroDraws_halves. simpl. lia. }
  exists res, tape'. split; [exact Hrun|].
  apply generate_Some in Hrun as (_ & _ & Hlen & Hpath).
  destruct (SynthesisResult.data res) as [|pt rest]; [discriminate Hlen|].
  exists pt. split; [reflexivity|].
  rewrite (PathFrom_head _ _ _ _ _ _ _ _ _ _ _ Hpath).
  unfold pathPoint. simpl. lra.
Qed.

(** C6, amended: under the growth (GBM) model with zero volatility and a
    zero effective drift, the raw underlying state of every Path Point is
    initialValue, and so is its value for the asset classes that display
    the raw state (equity, FX, central-bank rate, total productivity, and
    commodity, inflation and GDP growth without a positive seasonal
    amplitude). *)
Theorem gbm_flat_path (h : JSDate.Host) (params : SynthesisParameters.t)
    (tape : list number) :
  let l := destructure params in
  Locals.modelType l = EQUITY_GBM ->
  Locals.sigma l = 0 ->
  effectiveMu l = 0 ->
  (7 * passes (SynthesisParameters.timeHorizon params) <= nonzeroDraws tape)%nat ->
  exists res tape',
    generateSynthesizedData h params tape = Some (res, tape')
    /\ forall pt, In pt (SynthesisResult.data res) ->
         DataPoint.underlyingValue pt = Some (Locals.initialValue l)
         /\ (displaysUnderlying l = true -> DataPoint.value pt = Locals.initialValue l).
Proof.
  intros l Hm Hs Hmu Hdraws.
  destruct (Enough_generate h params tape Hdraws) as (res & tape' & Hrun & _).
  exists res, tape'. split; [exact Hrun|].
  apply generate_Some in Hrun as (_ & _ & _ & Hpath). fold l in Hpath.
  intros pt Hin. apply In_nth_error in Hin as (k & Hk).
  assert (Hkeep : forall spot eps t spot' t',
             spot = Locals.initialValue l ->
             evolve l (effectiveMu l) spot eps t = Some (spot', t') ->
             spot' = Locals.initialValue l).
  { intros spot eps t spot' t' HP Hev.
    rewrite (evolve_gbm_flat l _ spot eps t Hm Hs Hmu) in Hev.
    injection Hev as <- _. exact HP. }
  destruct (PathFrom_invariant _ _ _ _ _ _ (fun s => s = Locals.initialValue l)
              Hkeep _ _ _ _ Hpath eq_refl _ _ Hk)
    as (s & p & -> & ->).
  split; [apply pathPoint_underlying|].
  intros Hd. now apply pathPoint_displays_underlying.
Qed.

Lemma gbm_flat_path_witness :
  Locals.modelType (destructure (flatScenario EQUITY)) = EQUITY_GBM
  /\ Locals.sigma (destructure (flatScenario EQUITY)) = 0
  /\ effectiveMu (destructure (flatScenario EQUITY)) = 0
  /\ (7 * passes (SynthesisParameters.timeHorizon (flatScenario EQUITY))
      <= nonzeroDraws (halves 77))%nat
  /\ exists res tape',
       generateSynthesizedData sampleHost (flatScenario EQUITY) (halves 77)
       = Some (res, tape')
       /\ forall pt, In pt (SynthesisResult.data res) -> DataPoint.value pt = 100.
Proof.
  assert (Hm : Locals.modelType (destructure (flatScenario EQUITY)) = EQUITY_GBM)
    by reflexivity.
  assert (Hs : Locals.sigma (destructure (flatScenario EQUITY)) = 0) by reflexivity.
  assert (Hmu : effectiveMu (destructure (flatScenario EQUITY)) = 0)
    by (unfold effectiveMu; simpl; lra).
  assert (Hd : (7 * passes (SynthesisParameters.timeHorizon (flatScenario EQUITY))
                <= nonzeroDraws (halves 77))%nat)
    by (rewrite nonzeroDraws_halves; simpl; lia).
  destruct (gbm_flat_path sampleHost (flatScenario EQUITY) (halves 77) Hm Hs Hmu Hd)
    as (res & tape' & Hrun & Hflat).
  repeat (split; [assumption|]).
  exists res, tape'. split; [exact Hrun|].
  intros pt Hin. destruct (Hflat pt Hin) as (_ & Hval).
  apply Hval. reflexivity.
Defined.

(** ** Determinism *)






(** ** Put-call parity *)

Lemma PI_lower : 3.1415926535 < PI.
Proof.
  pose proof (PI_2_3_7_ineq 4) as [Hlo _].
  unfold sum_f_R0, tg_alt, PI_2_3_7_tg, Ratan_seq in Hlo.
  simpl in Hlo. lra.
Qed.

Lemma PI_upper : PI < 3.1415926536.
Proof.
  pose proof (PI_2_3_7_ineq 5) as [_ Hhi].
  unfold sum_f_R0, tg_alt, PI_2_3_7_tg, Ratan_seq in Hhi.
  simpl in Hhi. lra.
Qed.

Lemma sqrt_above (a x : number) : 0 <= a -> a * a < x -> a < sqrt x.
Proof.
  intros Ha Hx. rewrite <- (sqrt_square a) at 1 by exact Ha.
  apply sqrt_lt_1; nra.
Qed.

Lemma sqrt_below (a x : number) : 0 <= a -> 0 <= x -> x < a * a -> sqrt x < a.
Proof.
  intros Ha H0 Hx. rewrite <- (sqrt_square a) at 1 by exact Ha.
  apply sqrt_lt_1; nra.
Qed.

Lemma sqrt_two_PI_bounds : 2.50662827459 < sqrt (2 * PI) < 2.50662827464.
Proof.
  pose proof PI_lower. pose proof PI_upper.
  split; [apply sqrt_above|apply sqrt_below]; lra.
Qed.

Lemma CND_zero : CND 0 = 1 - 1.253314136 / sqrt (2 * PI).
Proof.
  unfold CND. destruct (Rlt_dec 0 0) as [Hlt|_]; [lra|].
  rewrite Rabs_R0.
  replace (- 0 * 0 / 2.0) with 0 by lra. rewrite exp_0.
  replace (2.0 * PI) with (2 * PI) by lra.
  replace (1.0 / (1.0 + 0.2316419 * 0)) with 1 by lra.
  set (s := sqrt (2 * PI)). simpl. unfold Rdiv. lra.
Qed.

(** The polynomial approximation is not symmetric at zero: [CND 0] is
    about 0.5 + 5.2e-10. *)
Lemma cndSkew_bounds : 1.03e-9 < cndSkew < 1.06e-9.
Proof.
  unfold cndSkew. rewrite CND_zero.
  destruct sqrt_two_PI_bounds as [Hlo Hhi].
  set (s := sqrt (2 * PI)) in *.
  assert (Hs : 0 < s) by lra.
  assert (Hinv : / 2.50662827464 < / s < / 2.50662827459).
  { split; apply Rinv_lt_contravar; nra. }
  unfold Rdiv. lra.
Qed.

Lemma CND_symmetry (x : number) : x <> 0 -> CND x + CND (- x) = 1.
Proof.
  intros Hx. unfold CND. rewrite Rabs_Ropp.
  destruct (Rlt_dec x 0), (Rlt_dec (- x) 0); lra.
Qed.

Lemma CND_excess (x : number) :
  CND x + CND (- x) - 1 = 0 \/ CND x + CND (- x) - 1 = cndSkew.
Proof.
  destruct (Req_dec_T x 0) as [->|Hx].
  - right. rewrite Ropp_0. unfold cndSkew. lra.
  - left. rewrite CND_symmetry by exact Hx. lra.
Qed.

Lemma parityGap_eq (S K T r sigma : number) :
  0 < T ->
  parityGap S K T r sigma
  = S * (CND (bsD1 S K T r sigma) + CND (- bsD1 S K T r sigma) - 1)
    - K * exp (- r * T) * (CND (bsD2 S K T r sigma) + CND (- bsD2 S K T r sigma) - 1).
Proof.
  intros HT. unfold parityGap, calculateBS.
  destruct (Rle_dec T 0) as [Hle|_]; [lra|].
  simpl. fold (bsD1 S K T r sigma). fold (bsD2 S K T r sigma). lra.
Qed.

(** C5, as stated with a tolerance of 1e-6, fails: for S = K = 10000,
    T = 1, r = -0.125 and sigma = 0.5 the pricer computes d1 = 0, where the
    polynomial CND returns slightly more than one half, and the call and
    put prices miss parity by more than 1e-6. *)
Lemma parity_gap_at_zero_d1 :
  bsD1 10000 10000 1 (-0.125) 0.5 = 0
  /\ 1e-6
     < Rabs (price (calculateBS 10000 10000 1 (-0.125) 0.5 true)
             - price (calculateBS 10000 10000 1 (-0.125) 0.5 false)
             - (10000 - 10000 * exp (- (-0.125) * 1))).
Proof.
  assert (Hd1 : bsD1 10000 10000 1 (-0.125) 0.5 = 0).
  { unfold bsD1. replace (10000 / 10000) with 1 by lra.
    rewrite ln_1, sqrt_1. lra. }
  split; [exact Hd1|].
  fold (parityGap 10000 10000 1 (-0.125) 0.5).
  rewrite parityGap_eq by lra.
  unfold bsD2. rewrite Hd1, sqrt_1, Ropp_0.
  rewrite (CND_symmetry (0 - 0.5 * 1)) by lra.
  fold cndSkew. pose proof cndSkew_bounds as [Hlo _].
  replace (2 * CND 0 - 1) with cndSkew by reflexivity.
  replace (10000 * (CND 0 + CND 0 - 1) - 10000 * exp (- -0.125 * 1) * (1 - 1))
    with (10000 * cndSkew) by (unfold cndSkew; lra).
  rewrite Rabs_right by lra. lra.
Qed.

(** C5, amended: for S > 0, K > 0, T > 0, sigma > 0 and every r, the call
    and put prices of [calculateBS] on the same inputs satisfy
    call - put = S - K * exp(-r * T) exactly when neither d1 nor d2 is
    zero, and in every case to within 1.06e-9 times the larger of S and
    K * exp(-r * T). *)
Theorem put_call_parity (S K T r sigma : number) :
  0 < S -> 0 < K -> 0 < T -> 0 < sigma ->
  let call := price (calculateBS S K T r sigma true) in
  let put := price (calculateBS S K T r sigma false) in
  (bsD1 S K T r sigma <> 0 -> bsD2 S K T r sigma <> 0 ->
   call - put = S - K * exp (- r * T))
  /\ Rabs (call - put - (S - K * exp (- r * T)))
     <= 1.06e-9 * Rmax S (K * exp (- r * T)).
Proof.
  intros HS HK HT Hsigma call put.
  assert (Hgap : call - put - (S - K * exp (- r * T)) = parityGap S K T r sigma)
    by reflexivity.
  pose proof (parityGap_eq S K T r sigma HT) as Heq.
  split.
  - intros H1 H2.
    rewrite (CND_symmetry _ H1), (CND_symmetry _ H2) in Heq. lra.
  - rewrite Hgap, Heq.
    pose proof cndSkew_bounds as [Hlo Hhi].
    pose proof (exp_pos (- r * T)) as Hexp.
    set (Ke := K * exp (- r * T)) in *.
    assert (HKe : 0 < Ke) by (unfold Ke; nra).
    pose proof (Rmax_l S Ke) as Hl. pose proof (Rmax_r S Ke) as Hr.
    set (m := Rmax S Ke) in *.
    destruct (CND_excess (bsD1 S K T r sigma)) as [-> | ->];
      destruct (CND_excess (bsD2 S K T r sigma)) as [-> | ->];
      apply Rabs_le; split; nra.
Qed.

Lemma put_call_parity_witness :
  0 < 100 /\ 0 < 1 /\ 0 < 0.2
  /\ Rabs (price (calculateBS 100 100 1 0.03 0.2 true)
           - price (calculateBS 100 100 1 0.03 0.2 false)
           - (100 - 100 * exp (- (0.03) * 1)))
     <= 1.06e-9 * Rmax 100 (100 * exp (- (0.03) * 1)).
Proof.
  assert (H100 : 0 < 100) by lra.
  assert (H1 : 0 < 1) by lra.
  assert (Hs : 0 < 0.2) by lra.
  split; [exact H100|]. split; [exact H1|]. split; [exact Hs|].
  exact (proj2 (put_call_parity 100 100 1 0.03 0.2 H100 H100 H1 Hs)).
Defined.

(** * Further properties of the code *)

(** ** The parameter history of the application *)

Section HistoryProperties.

Context {P Patch : Type}.
Variable merge : P -> Patch -> P.
Variable stringify : P -> string.

Lemma length_sliceLast {A : Type} (n : nat) (xs : list A) :
  (List.length (App.sliceLast n xs) <= n)%nat.
Proof. unfold App.sliceLast. rewrite length_skipn. lia. Qed.

Lemma undo_snoc (older : list P) (previous now : P) (later : list P) :
  App.undo (App.mkHistory (older ++ [previous]) now later)
  = App.mkHistory older previous (now :: later).
Proof.
  unfold App.undo. simpl.
  rewrite length_app, Nat.add_1_r.
  rewrite nth_error_app2 by lia. rewrite Nat.sub_diag. simpl.
  rewrite firstn_app, Nat.sub_diag, firstn_all. simpl. now rewrite app_nil_r.
Qed.

Lemma past_snoc (st : App.History P) :
  App.canUndo st = true ->
  exists older previous, App.past st = older ++ [previous].
Proof.
  unfold App.canUndo. intros H. apply Nat.ltb_lt in H.
  destruct (exists_last (l := App.past st)) as (older & previous & Heq).
  - intros Hnil. rewrite Hnil in H. simpl in H. lia.
  - now exists older, previous.
Qed.

(** Undo followed by redo gives back the state it started from, whenever
    undo is enabled. *)
Theorem undo_then_redo (st : App.History P) :
  App.canUndo st = true -> App.redo (App.undo st) = st.
Proof.
  intros H. destruct (past_snoc st H) as (older & previous & Hpast).
  destruct st as [past now later]. simpl in Hpast. subst past.
  rewrite undo_snoc. reflexivity.
Qed.

(** Redo followed by undo gives back the state it started from, whenever
    redo is enabled. *)
Theorem redo_then_undo (st : App.History P) :
  App.canRedo st = true -> App.undo (App.redo st) = st.
Proof.
  destruct st as [past now [|next later]]; simpl; [discriminate|].
  intros _. unfold App.redo. simpl. apply undo_snoc.
Qed.

(** Undo and redo only move the cursor: the sequence of the past states,
    the current one and the future ones stays the same. *)
Theorem undo_redo_keep_timeline (st : App.History P) :
  App.past (App.undo st) ++ App.params (App.undo st) :: App.future (App.undo st)
  = App.past st ++ App.params st :: App.future st
  /\ App.past (App.redo st) ++ App.params (App.redo st) :: App.future (App.redo st)
     = App.past st ++ App.params st :: App.future st.
Proof.
  split.
  - destruct (App.canUndo st) eqn:Hcan.
    + destruct (past_snoc st Hcan) as (older & previous & Hpast).
      destruct st as [past now later]. simpl in Hpast. subst past.
      rewrite undo_snoc. simpl. now rewrite <- app_assoc.
    + unfold App.canUndo in Hcan. apply Nat.ltb_ge in Hcan.
      unfold App.undo. destruct (List.length (App.past st)); [reflexivity|lia].
  - destruct st as [past now [|next later]]; [reflexivity|].
    unfold App.redo. simpl. now rewrite <- app_assoc.
Qed.

(** A change of the parameters can be undone and redone: right after it
    undo is enabled and redo is not, undo gives back the parameters from
    before the change and redo then gives the changed ones. *)
Theorem change_then_undo (st : App.History P) (newParams : Patch) :
  stringify (merge (App.params st) newParams) <> stringify (App.params st) ->
  let st' := App.handleParamChange merge stringify st newParams in
  App.canUndo st' = true
  /\ App.canRedo st' = false
  /\ App.params (App.undo st') = App.params st
  /\ App.redo (App.undo st') = st'.
Proof.
  intros Hchanged st'. subst st'. unfold App.handleParamChange.
  destruct (string_dec _ _) as [Heq|_]; [contradiction|].
  rewrite undo_snoc. simpl.
  repeat split.
  unfold App.canUndo. simpl. rewrite length_app. simpl.
  apply Nat.ltb_lt. lia.
Qed.

(** The history never holds more than [MAX_HISTORY] entries: in every
    state the application can reach, the undo and redo lists together
    have at most 50 elements. *)
Theorem history_bounded (initial : P) (st : App.History P) :
  App.Reachable merge stringify initial st ->
  (List.length (App.past st) + List.length (App.future st) <= App.MAX_HISTORY)%nat.
Proof.
  assert (Hpush : forall (past : list P) (now : P),
             (List.length (App.sliceLast (App.MAX_HISTORY - 1) past ++ [now])
              <= App.MAX_HISTORY)%nat).
  { intros past now. rewrite length_app.
    pose proof (length_sliceLast (App.MAX_HISTORY - 1) past) as Hlast.
    change (List.length [now]) with 1%nat.
    change (App.MAX_HISTORY - 1)%nat with 49%nat in *.
    change App.MAX_HISTORY with 50%nat. lia. }
  induction 1 as [|st Hst IH|st Hst IH|st np Hst IH|st np Hst IH].
  - simpl. unfold App.MAX_HISTORY. lia.
  - destruct (App.canUndo st) eqn:Hcan.
    + destruct (past_snoc st Hcan) as (older & previous & Hpast).
      destruct st as [past now later]. simpl in *. subst past.
      rewrite undo_snoc. simpl. rewrite length_app in IH. simpl in IH. lia.
    + unfold App.canUndo in Hcan. apply Nat.ltb_ge in Hcan.
      unfold App.undo. destruct (List.length (App.past st)) eqn:Hlen; [|lia].
      rewrite Hlen. exact IH.
  - destruct st as [past now [|next later]]; [exact IH|].
    unfold App.redo. simpl in *. rewrite length_app. simpl. lia.
  - unfold App.handleParamChange.
    destruct (string_dec _ _); [exact IH|]. simpl.
    rewrite Nat.add_0_r. apply Hpush.
  - unfold App.handleScenarioApplied. simpl.
    rewrite Nat.add_0_r. apply Hpush.
Qed.

End HistoryProperties.

Lemma undo_then_redo_witness :
  App.canUndo (App.mkHistory [1%nat; 2%nat] 3%nat [4%nat]) = true
  /\ App.redo (App.undo (App.mkHistory [1%nat; 2%nat] 3%nat [4%nat]))
     = App.mkHistory [1%nat; 2%nat] 3%nat [4%nat].
Proof.
  split; [reflexivity|].
  exact (undo_then_redo (App.mkHistory [1%nat; 2%nat] 3%nat [4%nat]) eq_refl).
Defined.

Lemma redo_then_undo_witness :
  App.canRedo (App.mkHistory [1%nat; 2%nat] 3%nat [4%nat]) = true
  /\ App.undo (App.redo (App.mkHistory [1%nat; 2%nat] 3%nat [4%nat]))
     = App.mkHistory [1%nat; 2%nat] 3%nat [4%nat].
Proof.
  split; [reflexivity|].
  exact (redo_then_undo (App.mkHistory [1%nat; 2%nat] 3%nat [4%nat]) eq_refl).
Defined.

Lemma change_then_undo_witness :
  let merge := fun (_ n : nat) => n in
  let stringify := fun n : nat => if Nat.eqb n 0 then "zero"%string else "more"%string in
  let st := App.mkHistory [7%nat] 0%nat [9%nat] in
  stringify (merge (App.params st) 5%nat) <> stringify (App.params st)
  /\ App.params (App.undo (App.handleParamChange merge stringify st 5%nat)) = 0%nat
  /\ App.redo (App.undo (App.handleParamChange merge stringify st 5%nat))
     = App.handleParamChange merge stringify st 5%nat.
Proof.
  intros merge stringify st.
  assert (H : stringify (merge (App.params st) 5%nat) <> stringify (App.params st))
    by (simpl; discriminate).
  destruct (change_then_undo merge stringify st 5%nat H) as (_ & _ & Hundo & Hredo).
  split; [exact H|]. split; [exact Hundo|exact Hredo].
Defined.

Lemma history_bounded_witness :
  let merge := fun (_ n : nat) => n in
  let stringify := fun n : nat => if Nat.eqb n 0 then "zero"%string else "more"%string in
  let st := App.undo (App.handleScenarioApplied (App.mkHistory [] 0%nat []) 5%nat) in
  App.Reachable merge stringify 0%nat st
  /\ (List.length (App.past st) + List.length (App.future st) <= App.MAX_HISTORY)%nat.
Proof.
  intros merge stringify st.
  assert (H : App.Reachable merge stringify 0%nat st)
    by (apply App.AfterUndo, App.AfterScenario, App.AtStart).
  split; [exact H|].
  exact (history_bounded merge stringify 0%nat st H).
Defined.

(** ** The coupling figures outside the engine *)

Lemma Rabs_clamp (x : number) : Rabs (clamp x) <= Rabs x.
Proof.
  unfold clamp, Rmax, Rmin.
  destruct (Rle_dec 1 x); destruct (Rle_dec (-1) _);
    unfold Rabs; repeat destruct (Rcase_abs _); lra.
Qed.

Lemma clamp_zero : clamp 0 = 0.
Proof. unfold clamp. rewrite Rmin_right by lra. apply Rmax_right. lra. Qed.

Lemma board_rho_sum (c : CorrelationFactors.t) :
  fold_left (fun acc val => acc + jsOr val 0) (App.factorValues c) 0
  = coefficient (CorrelationFactors.equity c) + coefficient (CorrelationFactors.rates c)
    + coefficient (CorrelationFactors.volatility c)
    + coefficient (CorrelationFactors.commodity c).
Proof.
  destruct c as [[e|] [r|] [v|] [k|]];
    cbn; rewrite ?jsOr_zero; unfold coefficient, withDefault; lra.
Qed.

Lemma strength_sum (c : CorrelationFactors.t) :
  fold_left (fun acc val => acc + Rabs (jsOr val 0)) (App.factorValues c) 0
  = Rabs (coefficient (CorrelationFactors.equity c))
    + Rabs (coefficient (CorrelationFactors.rates c))
    + Rabs (coefficient (CorrelationFactors.volatility c))
    + Rabs (coefficient (CorrelationFactors.commodity c)).
Proof.
  destruct c as [[e|] [r|] [v|] [k|]];
    cbn -[Rabs]; rewrite ?jsOr_zero; unfold coefficient, withDefault;
    rewrite ?Rabs_R0; lra.
Qed.

Lemma noFactors_sum (c : CorrelationFactors.t) :
  noFactors c = true ->
  coefficient (CorrelationFactors.equity c) + coefficient (CorrelationFactors.rates c)
  + coefficient (CorrelationFactors.volatility c)
  + coefficient (CorrelationFactors.commodity c) = 0.
Proof.
  destruct c as [[e|] [r|] [v|] [k|]]; try discriminate.
  intros _. unfold coefficient, withDefault. simpl. lra.
Qed.

(** The coefficient the engine couples the shocks with is the coupling
    figure of the board clamped to [-1, 1] -- the board shows the raw sum,
    which can leave that interval -- and its magnitude is at most the
    correlation strength reported for analysis. *)
Theorem engine_rho_is_clamped_board_rho (parameters : SynthesisParameters.t) :
  aggregateRho (destructure parameters) = clamp (Board.effectiveRho parameters)
  /\ Rabs (aggregateRho (destructure parameters)) <= App.correlationStrength parameters.
Proof.
  set (c := withDefault (SynthesisParameters.correlations parameters)
              CorrelationFactors.empty).
  assert (Hrho : aggregateRho (destructure parameters) = clamp (Board.effectiveRho parameters)).
  { rewrite aggregateRho_by_spec. unfold Board.effectiveRho. fold c.
    change (Locals.correlations (destructure parameters)) with c.
    rewrite board_rho_sum. unfold rhoBySpec.
    destruct (noFactors c) eqn:Hno; [|reflexivity].
    rewrite (noFactors_sum c Hno). symmetry. apply clamp_zero. }
  split; [exact Hrho|].
  rewrite Hrho. eapply Rle_trans; [apply Rabs_clamp|].
  unfold Board.effectiveRho, App.correlationStrength. fold c.
  rewrite board_rho_sum, strength_sum.
  set (e := coefficient (CorrelationFactors.equity c)).
  set (r := coefficient (CorrelationFactors.rates c)).
  set (v := coefficient (CorrelationFactors.volatility c)).
  set (k := coefficient (CorrelationFactors.commodity c)).
  pose proof (Rabs_triang (e + r + v) k).
  pose proof (Rabs_triang (e + r) v).
  pose proof (Rabs_triang e r). lra.
Qed.

(** ** The stress test of the board *)

(** For an option-like result whose last Path Point carries Greeks, the
    shocked price is never negative, whatever the shock; and a shock of
    magnitude zero has no profit or loss, no percent change, and leaves a
    non-negative price as it is. *)
Theorem shocked_price_floor (parameters : SynthesisParameters.t)
    (latestPoint : DataPoint.t) (g : Greeks.t) :
  Board.hasGreeks parameters = true ->
  DataPoint.greeks latestPoint = Some g ->
  0 <= DataPoint.value latestPoint ->
  (forall shockType shockMagnitude,
      0 <= Board.newPrice
             (Board.shockImpact parameters latestPoint shockType shockMagnitude))
  /\ (forall shockType,
        Board.shockImpact parameters latestPoint shockType 0
        = Board.mkShockImpact 0 (DataPoint.value latestPoint) 0).
Proof.
  intros Hhas Hg Hval. unfold Board.shockImpact. rewrite Hhas, Hg. split.
  - intros shockType m. simpl. apply Rmax_l.
  - intros shockType. destruct shockType; cbv zeta;
      match goal with
      | |- Board.mkShockImpact ?e _ _ = _ =>
          assert (He : e = 0) by (simpl; lra); rewrite He
      end;
      (f_equal;
       [ rewrite Rplus_0_r; now apply Rmax_right
       | destruct (Req_dec_T (DataPoint.value latestPoint) 0); [reflexivity|];
         unfold Rdiv; lra ]).
Qed.

(** An asset shock is priced to second order: the profits of an up and a
    down shock of the same size add up to gamma times the squared move of
    the underlying and differ by twice delta times the move, so with a
    non-negative gamma the two shocks never both lose. *)
Theorem asset_shock_second_order (parameters : SynthesisParameters.t)
    (latestPoint : DataPoint.t) (g : Greeks.t) (u m : number) :
  Board.hasGreeks parameters = true ->
  DataPoint.greeks latestPoint = Some g ->
  DataPoint.underlyingValue latestPoint = Some u ->
  u <> 0 ->
  let up := Board.pnl (Board.shockImpact parameters latestPoint Board.asset m) in
  let down := Board.pnl (Board.shockImpact parameters latestPoint Board.asset (- m)) in
  let dS := u * (m / 100) in
  up + down = Greeks.gamma g * dS ^ 2
  /\ up - down = 2 * Greeks.delta g * dS
  /\ (0 <= Greeks.gamma g -> 0 <= up \/ 0 <= down).
Proof.
  intros Hhas Hg Hu Hnz up down dS.
  assert (Hup : up = Greeks.delta g * dS + 0.5 * Greeks.gamma g * dS ^ 2).
  { subst up dS. unfold Board.shockImpact. rewrite Hhas, Hg, Hu. simpl Board.pnl.
    unfold jsOr. destruct (Req_dec_T u 0) as [Hz|_]; [contradiction|reflexivity]. }
  assert (Hdown : down = - (Greeks.delta g * dS) + 0.5 * Greeks.gamma g * dS ^ 2).
  { subst down dS. unfold Board.shockImpact. rewrite Hhas, Hg, Hu. simpl Board.pnl.
    unfold jsOr. destruct (Req_dec_T u 0) as [Hz|_]; [contradiction|]. simpl. lra. }
  rewrite Hup, Hdown. clear Hup Hdown up down.
  split; [lra|]. split; [lra|].
  intros Hgamma.
  assert (Hb : 0 <= 0.5 * Greeks.gamma g * dS ^ 2).
  { apply Rmult_le_pos; [lra|]. apply pow2_ge_0. }
  destruct (Rle_dec 0 (Greeks.delta g * dS)); [left|right]; lra.
Qed.

Lemma shocked_price_floor_witness :
  Board.hasGreeks zeroImpliedVolOption = true
  /\ 0 <= DataPoint.value sampleOptionPoint
  /\ 0 <= Board.newPrice
            (Board.shockImpact zeroImpliedVolOption sampleOptionPoint Board.time 3650)
  /\ Board.shockImpact zeroImpliedVolOption sampleOptionPoint Board.vol 0
     = Board.mkShockImpact 0 10.45 0.
Proof.
  assert (Hval : 0 <= DataPoint.value sampleOptionPoint) by (simpl; lra).
  destruct (shocked_price_floor zeroImpliedVolOption sampleOptionPoint _
              eq_refl eq_refl Hval) as (Hfloor & Hzero).
  split; [reflexivity|]. split; [exact Hval|].
  split; [apply Hfloor|apply Hzero].
Defined.

Lemma asset_shock_second_order_witness :
  Board.hasGreeks zeroImpliedVolOption = true
  /\ 100 <> 0
  /\ Board.pnl (Board.shockImpact zeroImpliedVolOption sampleOptionPoint Board.asset 10)
     + Board.pnl (Board.shockImpact zeroImpliedVolOption sampleOptionPoint Board.asset (- (10)))
     = 0.02 * (100 * (10 / 100)) ^ 2.
Proof.
  assert (Hnz : 100 <> 0) by lra.
  split; [reflexivity|]. split; [exact Hnz|].
  exact (proj1 (asset_shock_second_order zeroImpliedVolOption sampleOptionPoint _ 100 10
                  eq_refl eq_refl eq_refl Hnz)).
Defined.

(** ** Summary statistics *)

Lemma fold_Rmin_le (xs : list number) : forall a,
  fold_left Rmin xs a <= a /\ forall y, In y xs -> fold_left Rmin xs a <= y.
Proof.
  induction xs as [|x xs IH]; intros a; simpl.
  - split; [lra|contradiction].
  - destruct (IH (Rmin a x)) as [Hacc Hin].
    pose proof (Rmin_l a x). pose proof (Rmin_r a x).
    split; [lra|]. intros y [<-|Hy]; [lra|now apply Hin].
Qed.

Lemma fold_Rmax_ge (xs : list number) : forall a,
  a <= fold_left Rmax xs a /\ forall y, In y xs -> y <= fold_left Rmax xs a.
Proof.
  induction xs as [|x xs IH]; intros a; simpl.
  - split; [lra|contradiction].
  - destruct (IH (Rmax a x)) as [Hacc Hin].
    pose proof (Rmax_l a x). pose proof (Rmax_r a x).
    split; [lra|]. intros y [<-|Hy]; [lra|now apply Hin].
Qed.

Lemma fold_Rmin_In (xs : list number) : forall a,
  In (fold_left Rmin xs a) (a :: xs).
Proof.
  induction xs as [|x xs IH]; intros a; simpl; [now left|].
  destruct (IH (Rmin a x)) as [Heq|Hin]; [|now right; right].
  rewrite <- Heq. unfold Rmin. destruct (Rle_dec a x); [now left|now right; left].
Qed.

Lemma fold_Rmax_In (xs : list number) : forall a,
  In (fold_left Rmax xs a) (a :: xs).
Proof.
  induction xs as [|x xs IH]; intros a; simpl; [now left|].
  destruct (IH (Rmax a x)) as [Heq|Hin]; [|now right; right].
  rewrite <- Heq. unfold Rmax. destruct (Rle_dec a x); [now right; left|now left].
Qed.

(** Over a path that is not empty the summary's min and max are values of
    the path, no value of the path lies below the min or above the max, and
    the volatility is not negative. *)
Theorem summary_of_a_path (x : number) (rest : list number) :
  exists mn mx av vl,
    calculateSummary (x :: rest)
    = Summary.mk (Finite mx) (Finite mn) (Finite av) (Finite vl)
    /\ In mn (x :: rest) /\ In mx (x :: rest)
    /\ (forall y, In y (x :: rest) -> mn <= y <= mx)
    /\ 0 <= vl.
Proof.
  set (mn := fold_left Rmin rest x). set (mx := fold_left Rmax rest x).
  eexists mn, mx, _, _. split; [reflexivity|].
  split; [apply fold_Rmin_In|]. split; [apply fold_Rmax_In|].
  split; [|apply sqrt_pos].
  destruct (fold_Rmin_le rest x) as [Hmin0 Hmin].
  destruct (fold_Rmax_ge rest x) as [Hmax0 Hmax].
  intros y [<-|Hy]; split; auto.
Qed.

(** ** Runs and their Path Points *)

(** A run over a horizon that is not negative returns [timeHorizon + 1]
    Path Points; the one in position [i] carries the index [i], and its
    date is the UTC date of the instant at which the local clock reads,
    [i] local days later, what it read at the start of the run.  Whenever
    the zone has at that instant the offset from UTC that it had at the
    start, this is the date of the start plus [i] days. *)
Theorem path_indices_and_dates (h : JSDate.Host) (params : SynthesisParameters.t)
    (tape : list number) :
  (0 <= SynthesisParameters.timeHorizon params)%Z ->
  (7 * passes (SynthesisParameters.timeHorizon params) <= nonzeroDraws tape)%nat ->
  exists res tape',
    generateSynthesizedData h params tape = Some (res, tape')
    /\ Z.of_nat (List.length (SynthesisResult.data res))
       = (SynthesisParameters.timeHorizon params + 1)%Z
    /\ forall i, (0 <= i <= SynthesisParameters.timeHorizon params)%Z ->
         exists pt,
           nth_error (SynthesisResult.data res) (Z.to_nat i) = Some pt
           /\ DataPoint.index pt = i
           /\ DataPoint.timestamp pt
              = JSDate.toISODate (JSDate.sameClockAfter h (JSDate.now h) i)
           /\ (JSDate.LocalTZA h
                 (JSDate.addDays (JSDate.LocalTime h (JSDate.now h)) i) false
               = JSDate.LocalTZA h (JSDate.now h) true ->
               DataPoint.timestamp pt
               = JSDate.isoDateOfDay (JSDate.Day (JSDate.now h) + i)).
Proof.
  intros Hvalid Hdraws.
  destruct (run_indices h params tape Hvalid Hdraws)
    as (res & tape' & Hrun & Hlen & Hpts).
  exists res, tape'. split; [exact Hrun|]. split; [exact Hlen|].
  intros i Hi. destruct (Hpts i Hi) as (pt & s & p & Hnth & ->).
  eexists. split; [exact Hnth|].
  rewrite pathPoint_index, pathPoint_timestamp.
  split; [reflexivity|]. split; [reflexivity|].
  apply sameClockAfter_same_offset.
Qed.

Lemma path_indices_and_dates_witness :
  (0 <= SynthesisParameters.timeHorizon twoStepEquity)%Z
  /\ (7 * passes (SynthesisParameters.timeHorizon twoStepEquity)
      <= nonzeroDraws (halves 14))%nat
  /\ exists res tape',
       generateSynthesizedData sampleHost twoStepEquity (halves 14) = Some (res, tape')
       /\ Z.of_nat (List.length (SynthesisResult.data res))
          = (SynthesisParameters.timeHorizon twoStepEquity + 1)%Z
       /\ forall i, (0 <= i <= SynthesisParameters.timeHorizon twoStepEquity)%Z ->
            exists pt,
              nth_error (SynthesisResult.data res) (Z.to_nat i) = Some pt
              /\ DataPoint.index pt = i
              /\ DataPoint.timestamp pt
                 = JSDate.isoDateOfDay (JSDate.Day (JSDate.now sampleHost) + i).
Proof.
  assert (H1 : (0 <= SynthesisParameters.timeHorizon twoStepEquity)%Z)
    by (simpl; lia).
  assert (H2 : (7 * passes (SynthesisParameters.timeHorizon twoStepEquity)
                <= nonzeroDraws (halves 14))%nat)
    by (rewrite nonzeroDraws_halves; simpl; lia).
  split; [exact H1|]. split; [exact H2|].
  destruct (path_indices_and_dates sampleHost twoStepEquity (halves 14) H1 H2)
    as (res & tape' & Hrun & Hlen & Hpts).
  exists res, tape'. split; [exact Hrun|]. split; [exact Hlen|].
  intros i Hi. destruct (Hpts i Hi) as (pt & Hnth & Hidx & _ & Hdate).
  exists pt. split; [exact Hnth|]. split; [exact Hidx|].
  apply Hdate. reflexivity.
Defined.

(** With a negative time horizon the loop body never runs: the result
    has no Path Point, min is Infinity, max is -Infinity, mean and
    volatility are NaN, and no draw is consumed. *)
Theorem run_with_negative_horizon (h : JSDate.Host) (params : SynthesisParameters.t)
    (tape : list number) :
  (SynthesisParameters.timeHorizon params < 0)%Z ->
  generateSynthesizedData h params tape
  = Some (SynthesisResult.mk params []
            (Summary.mk NegInfinity PosInfinity NaN NaN), tape).
Proof.
  intros Hneg. unfold generateSynthesizedData, bind.
  replace (passes (Locals.timeHorizon (destructure params))) with O
    by (unfold passes; simpl; lia).
  reflexivity.
Qed.

Lemma run_with_negative_horizon_witness :
  (SynthesisParameters.timeHorizon negativeHorizon < 0)%Z
  /\ generateSynthesizedData sampleHost negativeHorizon []
     = Some (SynthesisResult.mk negativeHorizon []
               (Summary.mk NegInfinity PosInfinity NaN NaN), []).
Proof.
  assert (H : (SynthesisParameters.timeHorizon negativeHorizon < 0)%Z)
    by (simpl; lia).
  split; [exact H|].
  exact (run_with_negative_horizon sampleHost negativeHorizon [] H).
Defined.

(** Properties of the state and of the benchmark that every pass keeps
    hold at every Path Point of a path. *)
Lemma PathFrom_states h l pv mu rho sd (PS PB : number -> Prop) :
  (forall spot eps tape spot' tape',
      PS spot -> evolve l mu spot eps tape = Some (spot', tape') -> PS spot') ->
  (forall proxy Zm, PB proxy -> PB (nextMarketProxy l proxy Zm)) ->
  forall i spot proxy pts,
    PathFrom h l pv mu rho sd i spot proxy pts -> PS spot -> PB proxy ->
    forall k pt, nth_error pts k = Some pt ->
      exists spot' proxy',
        PS spot' /\ PB proxy'
        /\ pt = pathPoint h l pv sd (i + Z.of_nat k) spot' proxy'.
Proof.
  intros HS HB i spot proxy pts Hpath.
  induction Hpath as [|i spot proxy Zm Zi tape spot' tape' rest Hev Hrest IH];
    intros HPS HPB k pt Hk.
  - destruct k; discriminate.
  - destruct k as [|k]; simpl in Hk.
    + injection Hk as <-. exists spot, proxy. repeat split; try assumption.
      f_equal. lia.
    + destruct (IH (HS _ _ _ _ _ HPS Hev) (HB _ Zm HPB) _ _ Hk)
        as (s & p & Hs & Hp & ->).
      exists s, p. repeat split; try assumption. f_equal. lia.
Qed.

(** A run on a tape with enough draws returns, and each of its Path
    Points is the Path Point of its position for a state and a benchmark
    that satisfy what the initial value satisfies and every pass keeps. *)
Lemma run_points (PS PB : number -> Prop) h params tape :
  let l := destructure params in
  (7 * passes (SynthesisParameters.timeHorizon params) <= nonzeroDraws tape)%nat ->
  (forall spot eps t spot' t',
      PS spot -> evolve l (effectiveMu l) spot eps t = Some (spot', t') -> PS spot') ->
  (forall proxy Zm, PB proxy -> PB (nextMarketProxy l proxy Zm)) ->
  PS (Locals.initialValue l) -> PB (Locals.initialValue l) ->
  exists res tape',
    generateSynthesizedData h params tape = Some (res, tape')
    /\ List.length (SynthesisResult.data res)
       = passes (SynthesisParameters.timeHorizon params)
    /\ forall k pt, nth_error (SynthesisResult.data res) k = Some pt ->
         exists spot proxy,
           PS spot /\ PB proxy
           /\ pt = pathPoint h l (pricingVol l) (JSDate.now h) (Z.of_nat k) spot proxy.
Proof.
  intros l Hdraws HS HB HS0 HB0.
  destruct (Enough_generate h params tape Hdraws) as (res & tape' & Hrun & _).
  exists res, tape'. split; [exact Hrun|].
  apply generate_Some in Hrun as (_ & _ & Hlen & Hpath). fold l in Hpath.
  split; [exact Hlen|]. intros k pt Hk.
  destruct (PathFrom_states _ _ _ _ _ _ PS PB HS HB _ _ _ _ Hpath HS0 HB0 _ _ Hk)
    as (s & p & Hs & Hp & ->).
  exists s, p. rewrite Z.add_0_l. repeat split; assumption.
Qed.

Lemma nextMarketProxy_positive l proxy Zm :
  0 < proxy -> 0 < nextMarketProxy l proxy Zm.
Proof.
  intros H. unfold nextMarketProxy. apply Rmult_lt_0_compat; [exact H|apply exp_pos].
Qed.

Lemma evolve_growth_nonneg l mu spot eps tape spot' tape' :
  Locals.modelType l = EQUITY_GBM \/ Locals.modelType l = EQUITY_MERTON_JUMP ->
  0 <= spot ->
  evolve l mu spot eps tape = Some (spot', tape') -> 0 <= spot'.
Proof.
  intros [Hm|Hm] Hspot Hev; unfold evolve in Hev; rewrite Hm in Hev.
  - injection Hev as <- _.
    apply Rmult_le_pos; [exact Hspot|left; apply exp_pos].
  - apply bind_Some in Hev as (u & t1 & _ & Hev).
    apply bind_Some in Hev as (jf & t2 & Hjump & Hev).
    injection Hev as <- _.
    assert (Hjf : 0 <= jf).
    { destruct (Rlt_dec u _).
      - apply bind_Some in Hjump as (z & t3 & _ & Hjump).
        injection Hjump as <- _. left. apply exp_pos.
      - injection Hjump as <- _. lra. }
    apply Rmult_le_pos; [|exact Hjf].
    apply Rmult_le_pos; [exact Hspot|left; apply exp_pos].
Qed.

(** The benchmark of a run with a positive initial value starts at the
    initial value and is strictly positive at every Path Point, whatever
    the model of the asset. *)
Theorem benchmark_stays_positive (h : JSDate.Host) (params : SynthesisParameters.t)
    (tape : list number) :
  0 < SynthesisParameters.initialValue params ->
  (7 * passes (SynthesisParameters.timeHorizon params) <= nonzeroDraws tape)%nat ->
  exists res tape',
    generateSynthesizedData h params tape = Some (res, tape')
    /\ (forall pt, nth_error (SynthesisResult.data res) 0 = Some pt ->
          DataPoint.benchmarkValue pt = Some (SynthesisParameters.initialValue params)
          /\ DataPoint.underlyingValue pt = Some (SynthesisParameters.initialValue params))
    /\ forall pt, In pt (SynthesisResult.data res) ->
         exists b, DataPoint.benchmarkValue pt = Some b /\ 0 < b.
Proof.
  intros Hinit Hdraws.
  destruct (Enough_generate h params tape Hdraws) as (res & tape' & Hrun & _).
  exists res, tape'. split; [exact Hrun|].
  apply generate_Some in Hrun as (_ & _ & _ & Hpath).
  split.
  - intros pt H0.
    destruct (SynthesisResult.data res) as [|pt0 rest]; [discriminate|].
    injection H0 as <-. rewrite (PathFrom_head _ _ _ _ _ _ _ _ _ _ _ Hpath).
    rewrite pathPoint_benchmark, pathPoint_underlying. split; reflexivity.
  - intros pt Hin. apply In_nth_error in Hin as (k & Hk).
    destruct (PathFrom_states _ _ _ _ _ _ (fun _ => True) (fun b => 0 < b)
                (fun _ _ _ _ _ _ _ => I)
                (nextMarketProxy_positive (destructure params))
                _ _ _ _ Hpath I Hinit _ _ Hk) as (s & b & _ & Hb & ->).
    exists b. split; [apply pathPoint_benchmark|exact Hb].
Qed.

(** Under the growth models (GBM and Merton jump diffusion) the raw
    underlying state of a run with a positive initial value is never
    negative, at any Path Point: each pass multiplies it by exponentials. *)
Theorem growth_state_never_negative (h : JSDate.Host) (params : SynthesisParameters.t)
    (tape : list number) :
  SynthesisParameters.modelType params = EQUITY_GBM
  \/ SynthesisParameters.modelType params = EQUITY_MERTON_JUMP ->
  0 < SynthesisParameters.initialValue params ->
  (7 * passes (SynthesisParameters.timeHorizon params) <= nonzeroDraws tape)%nat ->
  exists res tape',
    generateSynthesizedData h params tape = Some (res, tape')
    /\ forall pt, In pt (SynthesisResult.data res) ->
         exists s, DataPoint.underlyingValue pt = Some s /\ ~ (s < 0).
Proof.
  intros Hm Hinit Hdraws.
  destruct (run_points (fun s => 0 <= s) (fun _ => True) h params tape Hdraws)
    as (res & tape' & Hrun & _ & Hpts); try exact I.
  - intros spot eps t spot' t' Hs Hev.
    exact (evolve_growth_nonneg (destructure params) _ _ _ _ _ _ Hm Hs Hev).
  - intros; exact I.
  - simpl. lra.
  - exists res, tape'. split; [exact Hrun|].
    intros pt Hin. apply In_nth_error in Hin as (k & Hk).
    destruct (Hpts k pt Hk) as (s & p & Hs & _ & ->).
    exists s. split; [apply pathPoint_underlying|lra].
Qed.

Lemma benchmark_stays_positive_witness :
  0 < SynthesisParameters.initialValue twoStepEquity
  /\ (7 * passes (SynthesisParameters.timeHorizon twoStepEquity)
      <= nonzeroDraws (halves 14))%nat
  /\ exists res tape',
       generateSynthesizedData sampleHost twoStepEquity (halves 14) = Some (res, tape')
       /\ forall pt, In pt (SynthesisResult.data res) ->
            exists b, DataPoint.benchmarkValue pt = Some b /\ 0 < b.
Proof.
  assert (H1 : 0 < SynthesisParameters.initialValue twoStepEquity) by (simpl; lra).
  assert (H2 : (7 * passes (SynthesisParameters.timeHorizon twoStepEquity)
                <= nonzeroDraws (halves 14))%nat)
    by (rewrite nonzeroDraws_halves; simpl; lia).
  split; [exact H1|]. split; [exact H2|].
  destruct (benchmark_stays_positive sampleHost twoStepEquity (halves 14) H1 H2)
    as (res & tape' & Hrun & _ & Hpos).
  exists res, tape'. split; [exact Hrun|exact Hpos].
Defined.

Lemma growth_state_never_negative_witness :
  SynthesisParameters.modelType twoStepEquity = EQUITY_GBM
  /\ 0 < SynthesisParameters.initialValue twoStepEquity
  /\ (7 * passes (SynthesisParameters.timeHorizon twoStepEquity)
      <= nonzeroDraws (halves 14))%nat
  /\ exists res tape',
       generateSynthesizedData sampleHost twoStepEquity (halves 14) = Some (res, tape')
       /\ forall pt, In pt (SynthesisResult.data res) ->
            exists s, DataPoint.underlyingValue pt = Some s /\ ~ (s < 0).
Proof.
  assert (H1 : 0 < SynthesisParameters.initialValue twoStepEquity) by (simpl; lra).
  assert (H2 : (7 * passes (SynthesisParameters.timeHorizon twoStepEquity)
                <= nonzeroDraws (halves 14))%nat)
    by (rewrite nonzeroDraws_halves; simpl; lia).
  split; [reflexivity|]. split; [exact H1|]. split; [exact H2|].
  exact (growth_state_never_negative sampleHost twoStepEquity (halves 14)
           (or_introl eq_refl) H1 H2).
Defined.

(** ** Validated parameters *)

(** A field that holds [NaN], as after its input was emptied, raises no
    error: every comparison of the validation is false on it. *)
Lemma validate_misses_not_a_number (params : Controls.Held.t) :
  (Controls.noNumber (Controls.Held.initialValue params) = true ->
   Controls.initialValue (Controls.validate params) = None)
  /\ (Controls.noNumber (Controls.Held.sigma params) = true ->
      Controls.sigma (Controls.validate params) = None)
  /\ (Controls.noNumber (Controls.Held.mu params) = true ->
      Controls.mu (Controls.validate params) = None)
  /\ (Controls.noNumber (Controls.Held.timeHorizon params) = true ->
      Controls.timeHorizon (Controls.validate params) = None)
  /\ (Controls.noNumber (Controls.Held.kappa params) = true ->
      Controls.kappa (Controls.validate params) = None)
  /\ (Controls.noNumber (Controls.Held.theta params) = true ->
      Controls.theta (Controls.validate params) = None)
  /\ (Controls.noNumber (Controls.Held.strikePrice params) = true ->
      Controls.strikePrice (Controls.validate params) = None)
  /\ (Controls.noNumber (Controls.Held.expiryTime params) = true ->
      Controls.expiryTime (Controls.validate params) = None)
  /\ (Controls.noNumber (Controls.Held.impliedVol params) = true ->
      Controls.impliedVol (Controls.validate params) = None)
  /\ (Controls.noNumber (Controls.Held.riskFreeRate params) = true ->
      Controls.riskFreeRate (Controls.validate params) = None).
Proof.
  destruct params as [m a iv sg mu th kp tt sp et ivol rf].
  unfold Controls.validate. cbn [Controls.Held.initialValue Controls.Held.sigma
    Controls.Held.mu Controls.Held.timeHorizon Controls.Held.kappa Controls.Held.theta
    Controls.Held.strikePrice Controls.Held.expiryTime Controls.Held.impliedVol
    Controls.Held.riskFreeRate Controls.Held.modelType Controls.Held.assetClass
    Controls.initialValue Controls.sigma Controls.mu Controls.timeHorizon
    Controls.kappa Controls.theta Controls.strikePrice Controls.expiryTime
    Controls.impliedVol Controls.riskFreeRate].
  repeat split; intros H.
  - destruct iv; [reflexivity|reflexivity|discriminate H].
  - destruct sg; [reflexivity|reflexivity|discriminate H].
  - destruct mu; [reflexivity|reflexivity|discriminate H].
  - destruct th; [reflexivity|reflexivity|discriminate H].
  - destruct kp; [|..|discriminate H]; cbn; rewrite ?andb_false_r; reflexivity.
  - destruct tt; [|..|discriminate H]; cbn; rewrite ?andb_false_r; reflexivity.
  - destruct sp; [|..|discriminate H]; cbn; rewrite ?andb_false_r; reflexivity.
  - destruct et; [|..|discriminate H]; cbn; rewrite ?andb_false_r; reflexivity.
  - destruct ivol; [|..|discriminate H]; cbn; rewrite ?andb_false_r; reflexivity.
  - destruct rf; [|..|discriminate H]; cbn; rewrite ?andb_false_r; reflexivity.
Qed.

(** When the fields the controls hold are numbers, no error means a
    positive initial value and a time horizon between 1 and 5000. *)
Lemma validate_accepts (params : SynthesisParameters.t) :
  Controls.hasErrors (Controls.validate (Controls.ofParameters params)) = false ->
  0 < SynthesisParameters.initialValue params
  /\ (1 <= SynthesisParameters.timeHorizon params <= 5000)%Z.
Proof.
  unfold Controls.hasErrors, Controls.validate. cbn [existsb].
  unfold Controls.report.
  cbn [Controls.ofParameters Controls.Held.initialValue Controls.Held.timeHorizon
       Controls.initialValue Controls.timeHorizon Controls.le Controls.lt Controls.gt].
  intros H.
  apply orb_false_iff in H as [Hinit H].
  apply orb_false_iff in H as [_ H].
  apply orb_false_iff in H as [_ H].
  apply orb_false_iff in H as [Hsteps _].
  split.
  - destruct (Rle_dec (SynthesisParameters.initialValue params) 0);
      [discriminate Hinit|lra].
  - destruct (Rlt_dec (IZR (SynthesisParameters.timeHorizon params)) 1) as [|Hlo];
      [discriminate Hsteps|].
    destruct (Rgt_dec (IZR (SynthesisParameters.timeHorizon params)) 5000) as [|Hhi];
      [discriminate Hsteps|].
    split; apply le_IZR; lra.
Qed.

(** Whenever the fields the controls hold are numbers, or absent, and the
    validation reports no error -- the condition under which the Generate
    button is enabled -- a run under a growth model returns between 2 and
    5001 Path Points, none with a negative underlying state. *)
Theorem validated_growth_run (h : JSDate.Host) (params : SynthesisParameters.t)
    (tape : list number) :
  Controls.hasErrors (Controls.validate (Controls.ofParameters params)) = false ->
  SynthesisParameters.modelType params = EQUITY_GBM
  \/ SynthesisParameters.modelType params = EQUITY_MERTON_JUMP ->
  (7 * passes (SynthesisParameters.timeHorizon params) <= nonzeroDraws tape)%nat ->
  exists res tape',
    generateSynthesizedData h params tape = Some (res, tape')
    /\ (2 <= Z.of_nat (List.length (SynthesisResult.data res)) <= 5001)%Z
    /\ forall pt, In pt (SynthesisResult.data res) ->
         exists s, DataPoint.underlyingValue pt = Some s /\ ~ (s < 0).
Proof.
  intros Hvalid Hm Hdraws.
  destruct (validate_accepts params Hvalid) as (Hinit & Hsteps).
  destruct (run_points (fun s => 0 <= s) (fun _ => True) h params tape Hdraws)
    as (res & tape' & Hrun & Hlen & Hpts); try exact I.
  - intros spot eps t spot' t' Hs Hev.
    exact (evolve_growth_nonneg (destructure params) _ _ _ _ _ _ Hm Hs Hev).
  - intros; exact I.
  - simpl. lra.
  - exists res, tape'. split; [exact Hrun|]. split.
    + rewrite Hlen. unfold passes. lia.
    + intros pt Hin. apply In_nth_error in Hin as (k & Hk).
      destruct (Hpts k pt Hk) as (s & p & Hs & _ & ->).
      exists s. split; [apply pathPoint_underlying|lra].
Qed.

Lemma validated_growth_run_witness :
  Controls.hasErrors (Controls.validate (Controls.ofParameters INITIAL_PARAMS)) = false
  /\ SynthesisParameters.modelType INITIAL_PARAMS = EQUITY_GBM
  /\ (7 * passes (SynthesisParameters.timeHorizon INITIAL_PARAMS)
      <= nonzeroDraws (halves 2562))%nat
  /\ exists res tape',
       generateSynthesizedData sampleHost INITIAL_PARAMS (halves 2562) = Some (res, tape')
       /\ (2 <= Z.of_nat (List.length (SynthesisResult.data res)) <= 5001)%Z.
Proof.
  assert (H1 : Controls.hasErrors (Controls.validate (Controls.ofParameters INITIAL_PARAMS))
               = false).
  { unfold Controls.hasErrors, Controls.validate, Controls.report, Controls.le,
      Controls.lt, Controls.gt. simpl.
    destruct (Rle_dec 100 0); [lra|].
    destruct (Rlt_dec 0.20 0); [lra|]. destruct (Rgt_dec 0.20 1.5); [lra|].
    destruct (Rlt_dec 0.08 (-1)); [lra|]. destruct (Rgt_dec 0.08 1); [lra|].
    destruct (Rlt_dec 365 1); [lra|]. destruct (Rgt_dec 365 5000); [lra|].
    reflexivity. }
  assert (H2 : (7 * passes (SynthesisParameters.timeHorizon INITIAL_PARAMS)
                <= nonzeroDraws (halves 2562))%nat)
    by (rewrite nonzeroDraws_halves; simpl; lia).
  split; [exact H1|]. split; [reflexivity|]. split; [exact H2|].
  destruct (validated_growth_run sampleHost INITIAL_PARAMS (halves 2562) H1
              (or_introl eq_refl) H2) as (res & tape' & Hrun & Hlen & _).
  exists res, tape'. split; [exact Hrun|exact Hlen].
Defined.

(** ** Display transforms of the asset classes *)

Lemma run_points_plain h params tape :
  let l := destructure params in
  (7 * passes (SynthesisParameters.timeHorizon params) <= nonzeroDraws tape)%nat ->
  exists res tape',
    generateSynthesizedData h params tape = Some (res, tape')
    /\ forall k pt, nth_error (SynthesisResult.data res) k = Some pt ->
         exists spot proxy,
           pt = pathPoint h l (pricingVol l) (JSDate.now h) (Z.of_nat k) spot proxy.
Proof.
  intros l Hdraws.
  destruct (run_points (fun _ => True) (fun _ => True) h params tape Hdraws)
    as (res & tape' & Hrun & _ & Hpts); try exact I; try (intros; exact I).
  exists res, tape'. split; [exact Hrun|].
  intros k pt Hk. destruct (Hpts k pt Hk) as (s & p & _ & _ & ->). now exists s, p.
Qed.

Lemma pathPoint_greeks_present h l pv sd i spot proxy :
  match DataPoint.greeks (pathPoint h l pv sd i spot proxy) with
  | Some _ => true
  | None => false
  end
  = match Locals.assetClass l with
    | OPTION | SWAPTION => true
    | _ => false
    end.
Proof. unfold pathPoint. destruct (Locals.assetClass l); reflexivity. Qed.

(** The engine attaches Greeks to a Path Point exactly when the asset
    class is an option or a swaption, which is when the board runs its
    stress test: every Path Point of a run has Greeks if the board's
    [hasGreeks] holds and has none otherwise. *)
Theorem greeks_exactly_for_option_like (h : JSDate.Host)
    (params : SynthesisParameters.t) (tape : list number) :
  (7 * passes (SynthesisParameters.timeHorizon params) <= nonzeroDraws tape)%nat ->
  exists res tape',
    generateSynthesizedData h params tape = Some (res, tape')
    /\ forall pt, In pt (SynthesisResult.data res) ->
         match DataPoint.greeks pt with
         | Some _ => true
         | None => false
         end = Board.hasGreeks params.
Proof.
  intros Hdraws.
  destruct (run_points_plain h params tape Hdraws) as (res & tape' & Hrun & Hpts).
  exists res, tape'. split; [exact Hrun|].
  intros pt Hin. apply In_nth_error in Hin as (k & Hk).
  destruct (Hpts k pt Hk) as (s & p & ->).
  rewrite pathPoint_greeks_present. reflexivity.
Qed.

Lemma greeks_exactly_for_option_like_witness :
  (7 * passes (SynthesisParameters.timeHorizon zeroImpliedVolOption)
   <= nonzeroDraws (halves 14))%nat
  /\ exists res tape',
       generateSynthesizedData sampleHost zeroImpliedVolOption (halves 14)
       = Some (res, tape')
       /\ forall pt, In pt (SynthesisResult.data res) ->
            match DataPoint.greeks pt with
            | Some _ => true
            | None => false
            end = true.
Proof.
  assert (H : (7 * passes (SynthesisParameters.timeHorizon zeroImpliedVolOption)
               <= nonzeroDraws (halves 14))%nat)
    by (rewrite nonzeroDraws_halves; simpl; lia).
  split; [exact H|].
  exact (greeks_exactly_for_option_like sampleHost zeroImpliedVolOption (halves 14) H).
Defined.

Lemma seasonalShiftAt_bound l i :
  Rabs (seasonalShiftAt l i) <= Rmax 0 (Locals.seasonalAmplitude l).
Proof.
  unfold seasonalShiftAt.
  destruct (isMacroSeasonal (Locals.assetClass l));
    [|rewrite Rabs_R0; apply Rmax_l].
  destruct (Rgt_dec (Locals.seasonalAmplitude l) 0) as [Hpos|_];
    [|rewrite Rabs_R0; apply Rmax_l].
  rewrite Rabs_mult, (Rabs_right (Locals.seasonalAmplitude l)) by lra.
  rewrite Rmax_right by lra.
  pose proof (SIN_bound (2 * PI * IZR i / 252)) as [Hlo Hhi].
  assert (Hsin : Rabs (sin (2 * PI * IZR i / 252)) <= 1) by (apply Rabs_le; lra).
  nra.
Qed.

Lemma seasonalShiftAt_start l : seasonalShiftAt l 0 = 0.
Proof.
  unfold seasonalShiftAt.
  destruct (isMacroSeasonal (Locals.assetClass l)); [|reflexivity].
  destruct (Rgt_dec (Locals.seasonalAmplitude l) 0); [|reflexivity].
  replace (2 * PI * 0 / 252) with 0 by lra. rewrite sin_0. lra.
Qed.

Lemma pathPoint_seasonal h l pv sd i spot proxy :
  isMacroSeasonal (Locals.assetClass l) = true ->
  DataPoint.value (pathPoint h l pv sd i spot proxy) = spot + seasonalShiftAt l i.
Proof.
  intros Hs. unfold pathPoint.
  destruct (Locals.assetClass l); try discriminate; reflexivity.
Qed.

(** For commodities, inflation and GDP growth the displayed value is the
    raw state plus a seasonal shift that is at most the seasonal amplitude
    in magnitude, absent when the amplitude is not positive, and zero at
    the first Path Point. *)
Theorem seasonal_shift_is_bounded (h : JSDate.Host) (params : SynthesisParameters.t)
    (tape : list number) :
  let l := destructure params in
  isMacroSeasonal (SynthesisParameters.assetClass params) = true ->
  (7 * passes (SynthesisParameters.timeHorizon params) <= nonzeroDraws tape)%nat ->
  exists res tape',
    generateSynthesizedData h params tape = Some (res, tape')
    /\ forall k pt, nth_error (SynthesisResult.data res) k = Some pt ->
         exists spot,
           DataPoint.underlyingValue pt = Some spot
           /\ Rabs (DataPoint.value pt - spot) <= Rmax 0 (Locals.seasonalAmplitude l)
           /\ (Locals.seasonalAmplitude l <= 0 -> DataPoint.value pt = spot)
           /\ (k = O -> DataPoint.value pt = spot).
Proof.
  intros l Hclass Hdraws.
  destruct (run_points_plain h params tape Hdraws) as (res & tape' & Hrun & Hpts).
  exists res, tape'. split; [exact Hrun|].
  intros k pt Hk. destruct (Hpts k pt Hk) as (s & p & ->). fold l.
  exists s. split; [apply pathPoint_underlying|].
  rewrite (pathPoint_seasonal h l _ _ _ s p Hclass).
  replace (s + seasonalShiftAt l (Z.of_nat k) - s) with (seasonalShiftAt l (Z.of_nat k))
    by lra.
  pose proof (seasonalShiftAt_bound l (Z.of_nat k)) as Hb.
  split; [exact Hb|]. split.
  - intros Hamp. rewrite Rmax_left in Hb by exact Hamp.
    assert (seasonalShiftAt l (Z.of_nat k) = 0).
    { revert Hb. unfold Rabs. destruct (Rcase_abs _); lra. }
    lra.
  - intros ->. simpl Z.of_nat. rewrite seasonalShiftAt_start. lra.
Qed.

(** For the unemployment rate the displayed value is the raw state
    floored at 2: it is never below 2 nor below the raw state, and it is
    the raw state whenever that is at least 2. *)
Theorem unemployment_display_floor (h : JSDate.Host) (params : SynthesisParameters.t)
    (tape : list number) :
  SynthesisParameters.assetClass params = UNEMPLOYMENT_RATE ->
  (7 * passes (SynthesisParameters.timeHorizon params) <= nonzeroDraws tape)%nat ->
  exists res tape',
    generateSynthesizedData h params tape = Some (res, tape')
    /\ forall pt, In pt (SynthesisResult.data res) ->
         exists spot,
           DataPoint.underlyingValue pt = Some spot
           /\ 2 <= DataPoint.value pt
           /\ spot <= DataPoint.value pt
           /\ (2 <= spot -> DataPoint.value pt = spot).
Proof.
  intros Hclass Hdraws.
  destruct (run_points_plain h params tape Hdraws) as (res & tape' & Hrun & Hpts).
  exists res, tape'. split; [exact Hrun|].
  intros pt Hin. apply In_nth_error in Hin as (k & Hk).
  destruct (Hpts k pt Hk) as (s & p & ->).
  exists s. split; [apply pathPoint_underlying|].
  unfold pathPoint, seasonalShiftAt.
  change (Locals.assetClass (destructure params))
    with (SynthesisParameters.assetClass params).
  rewrite Hclass. simpl.
  replace (s + 0) with s by lra.
  pose proof (Rmax_l 2.0 s). pose proof (Rmax_r 2.0 s).
  split; [lra|]. split; [lra|].
  intros Hs. apply Rmax_right. lra.
Qed.

(** For equities every Path Point carries the forward earnings -- the
    expected earnings grown at 3% a year over 252 steps -- and a
    price/earnings ratio that is the value divided by them, so that ratio
    times earnings gives back the value. *)
Theorem equity_fundamentals (h : JSDate.Host) (params : SynthesisParameters.t)
    (tape : list number) :
  let l := destructure params in
  SynthesisParameters.assetClass params = EQUITY ->
  Locals.expectedEarnings l <> 0 ->
  (7 * passes (SynthesisParameters.timeHorizon params) <= nonzeroDraws tape)%nat ->
  exists res tape',
    generateSynthesizedData h params tape = Some (res, tape')
    /\ forall k pt, nth_error (SynthesisResult.data res) k = Some pt ->
         exists pe earnings,
           DataPoint.peRatio pt = Some pe
           /\ DataPoint.expectedEarnings pt = Some earnings
           /\ earnings = Locals.expectedEarnings l * exp (0.03 * (INR k / 252))
           /\ pe * earnings = DataPoint.value pt
           /\ DataPoint.underlyingValue pt = Some (DataPoint.value pt).
Proof.
  intros l Hclass Hearn Hdraws.
  destruct (run_points_plain h params tape Hdraws) as (res & tape' & Hrun & Hpts).
  exists res, tape'. split; [exact Hrun|].
  intros k pt Hk. destruct (Hpts k pt Hk) as (s & p & ->). fold l.
  unfold pathPoint, seasonalShiftAt.
  change (Locals.assetClass l) with (SynthesisParameters.assetClass params).
  rewrite Hclass. simpl.
  rewrite <- INR_IZR_INZ.
  eexists. eexists. split; [reflexivity|]. split; [reflexivity|].
  split; [reflexivity|].
  pose proof (exp_pos (0.03 * (INR k / 252))) as Hexp.
  split; [|f_equal; lra].
  field. split; [lra|exact Hearn].
Qed.

Lemma seasonal_shift_is_bounded_witness :
  isMacroSeasonal (SynthesisParameters.assetClass seasonalCommodity) = true
  /\ (7 * passes (SynthesisParameters.timeHorizon seasonalCommodity)
      <= nonzeroDraws (halves 14))%nat
  /\ exists res tape',
       generateSynthesizedData sampleHost seasonalCommodity (halves 14) = Some (res, tape')
       /\ forall k pt, nth_error (SynthesisResult.data res) k = Some pt ->
            exists spot,
              DataPoint.underlyingValue pt = Some spot
              /\ Rabs (DataPoint.value pt - spot) <= Rmax 0 5.
Proof.
  assert (H : (7 * passes (SynthesisParameters.timeHorizon seasonalCommodity)
               <= nonzeroDraws (halves 14))%nat)
    by (rewrite nonzeroDraws_halves; simpl; lia).
  split; [reflexivity|]. split; [exact H|].
  destruct (seasonal_shift_is_bounded sampleHost seasonalCommodity (halves 14) eq_refl H)
    as (res & tape' & Hrun & Hpts).
  exists res, tape'. split; [exact Hrun|].
  intros k pt Hk. destruct (Hpts k pt Hk) as (spot & Hu & Hb & _).
  exists spot. split; [exact Hu|exact Hb].
Defined.

Lemma unemployment_display_floor_witness :
  SynthesisParameters.assetClass unemploymentRun = UNEMPLOYMENT_RATE
  /\ (7 * passes (SynthesisParameters.timeHorizon unemploymentRun)
      <= nonzeroDraws (halves 14))%nat
  /\ exists res tape',
       generateSynthesizedData sampleHost unemploymentRun (halves 14) = Some (res, tape')
       /\ forall pt, In pt (SynthesisResult.data res) -> 2 <= DataPoint.value pt.
Proof.
  assert (H : (7 * passes (SynthesisParameters.timeHorizon unemploymentRun)
               <= nonzeroDraws (halves 14))%nat)
    by (rewrite nonzeroDraws_halves; simpl; lia).
  split; [reflexivity|]. split; [exact H|].
  destruct (unemployment_display_floor sampleHost unemploymentRun (halves 14) eq_refl H)
    as (res & tape' & Hrun & Hpts).
  exists res, tape'. split; [exact Hrun|].
  intros pt Hin. destruct (Hpts pt Hin) as (spot & _ & Hfloor & _). exact Hfloor.
Defined.

Lemma equity_fundamentals_witness :
  SynthesisParameters.assetClass twoStepEquity = EQUITY
  /\ Locals.expectedEarnings (destructure twoStepEquity) <> 0
  /\ (7 * passes (SynthesisParameters.timeHorizon twoStepEquity)
      <= nonzeroDraws (halves 14))%nat
  /\ exists res tape',
       generateSynthesizedData sampleHost twoStepEquity (halves 14) = Some (res, tape')
       /\ forall k pt, nth_error (SynthesisResult.data res) k = Some pt ->
            exists pe earnings,
              DataPoint.peRatio pt = Some pe
              /\ DataPoint.expectedEarnings pt = Some earnings
              /\ pe * earnings = DataPoint.value pt.
Proof.
  assert (He : Locals.expectedEarnings (destructure twoStepEquity) <> 0)
    by (simpl; lra).
  assert (H : (7 * passes (SynthesisParameters.timeHorizon twoStepEquity)
               <= nonzeroDraws (halves 14))%nat)
    by (rewrite nonzeroDraws_halves; simpl; lia).
  split; [reflexivity|]. split; [exact He|]. split; [exact H|].
  destruct (equity_fundamentals sampleHost twoStepEquity (halves 14) eq_refl He H)
    as (res & tape' & Hrun & Hpts).
  exists res, tape'. split; [exact Hrun|].
  intros k pt Hk. destruct (Hpts k pt Hk) as (pe & e & Hpe & He' & _ & Hprod & _).
  exists pe, e. repeat split; assumption.
Defined.

(** ** Inputs the engine does not read *)

Lemma forLoop_ignores_peRatio pe base h p pv mu rho sd count : forall i st tape,
  forLoop h (destructure (withPeAndBaseRate pe base p)) pv mu rho sd count i st tape
  = forLoop h (destructure p) pv mu rho sd count i st tape.
Proof.
  induction count as [|count IH]; intros i st tape; [reflexivity|].
  cbn [forLoop]. unfold bind.
  change (iteration h (destructure (withPeAndBaseRate pe base p)) pv mu rho sd i st tape)
    with (iteration h (destructure p) pv mu rho sd i st tape).
  destruct (iteration h (destructure p) pv mu rho sd i st tape) as [[st1 tape1]|];
    [apply IH|reflexivity].
Qed.

(** The [peRatio] and [baseRate] inputs are never read: a run on
    parameters that differ in them only returns the same Path Points and
    the same summary and consumes the same draws (the price/earnings
    figure of a Path Point is derived from the value and the earnings, not
    from the input). *)
Theorem peRatio_and_baseRate_are_ignored (pe base : option number) (h : JSDate.Host)
    (params : SynthesisParameters.t) (tape : list number) :
  pathAndSummary (generateSynthesizedData h (withPeAndBaseRate pe base params) tape)
  = pathAndSummary (generateSynthesizedData h params tape).
Proof.
  unfold generateSynthesizedData, bind.
  change (pricingVol (destructure (withPeAndBaseRate pe base params)))
    with (pricingVol (destructure params)).
  change (effectiveMu (destructure (withPeAndBaseRate pe base params)))
    with (effectiveMu (destructure params)).
  change (aggregateRho (destructure (withPeAndBaseRate pe base params)))
    with (aggregateRho (destructure params)).
  change (Locals.timeHorizon (destructure (withPeAndBaseRate pe base params)))
    with (Locals.timeHorizon (destructure params)).
  change (Locals.initialValue (destructure (withPeAndBaseRate pe base params)))
    with (Locals.initialValue (destructure params)).
  rewrite forLoop_ignores_peRatio.
  destruct (forLoop h (destructure params) _ _ _ _ _ _ _ tape) as [[st tape']|];
    reflexivity.
Qed.

(** ** The process models *)

(** Without jump intensity (lambda * dt <= 0, as with the default
    lambda = 0) the jump model never jumps: on a draw in [0, 1) it makes
    the step of the growth model and consumes that one draw. *)
Theorem merton_without_intensity (l : Locals.t) (mu spot eps u : number)
    (tape : list number) :
  Locals.modelType l = EQUITY_MERTON_JUMP ->
  Locals.lambda l * Locals.dt l <= 0 ->
  0 <= u ->
  evolve l mu spot eps (u :: tape) = Some (gbmNext l mu spot eps, tape).
Proof.
  intros Hm Hlambda Hu. unfold evolve. rewrite Hm. unfold bind, random.
  destruct (Rlt_dec u (Locals.lambda l * Locals.dt l)) as [Hlt|_]; [lra|].
  unfold ret, gbmNext. do 2 f_equal. lra.
Qed.

Lemma merton_without_intensity_witness :
  Locals.modelType
    (destructure (requiredOnly EQUITY_MERTON_JUMP EQUITY 100 1 (1 / 252)))
  = EQUITY_MERTON_JUMP
  /\ 0 <= 1 / 2
  /\ evolve (destructure (requiredOnly EQUITY_MERTON_JUMP EQUITY 100 1 (1 / 252)))
       0.05 100 0 [1 / 2]
     = Some (gbmNext (destructure (requiredOnly EQUITY_MERTON_JUMP EQUITY 100 1 (1 / 252)))
               0.05 100 0, []).
Proof.
  assert (Hu : 0 <= 1 / 2) by lra.
  split; [reflexivity|]. split; [exact Hu|].
  apply merton_without_intensity; [reflexivity|simpl; lra|exact Hu].
Defined.

Lemma evolve_vasicek l mu spot eps tape :
  Locals.modelType l = INTEREST_RATE_VASICEK ->
  evolve l mu spot eps tape = Some (vasicekNext l spot eps, tape).
Proof. intros Hm. unfold evolve. rewrite Hm. reflexivity. Qed.

Lemma PathFrom_vasicek_noiseless h l pv mu rho sd :
  Locals.modelType l = INTEREST_RATE_VASICEK -> Locals.sigma l = 0 ->
  forall i spot proxy pts,
    PathFrom h l pv mu rho sd i spot proxy pts ->
    forall k pt, nth_error pts k = Some pt ->
      exists x,
        DataPoint.underlyingValue pt = Some x
        /\ x - Locals.theta l
           = (1 - Locals.kappa l * Locals.dt l) ^ k * (spot - Locals.theta l).
Proof.
  intros Hm Hsigma i spot proxy pts Hpath.
  induction Hpath as [|i spot proxy Zm Zi tape spot' tape' rest Hev Hrest IH];
    intros k pt Hk.
  - destruct k; discriminate.
  - destruct k as [|k]; simpl in Hk.
    + injection Hk as <-. exists spot. split; [apply pathPoint_underlying|].
      simpl. lra.
    + destruct (IH _ _ Hk) as (x & Hx & Hdist).
      exists x. split; [exact Hx|]. rewrite Hdist.
      rewrite (evolve_vasicek _ _ _ _ _ Hm) in Hev. injection Hev as <- _.
      unfold vasicekNext. rewrite Hsigma. simpl. ring.
Qed.

(** Without volatility the linear mean-reversion (Vasicek) model closes
    the gap to its target geometrically: at the Path Point of index k the
    distance of the raw state from theta is (1 - kappa * dt)^k times the
    initial distance. *)
Theorem vasicek_noiseless_reversion (h : JSDate.Host) (params : SynthesisParameters.t)
    (tape : list number) :
  let l := destructure params in
  Locals.modelType l = INTEREST_RATE_VASICEK ->
  Locals.sigma l = 0 ->
  (7 * passes (SynthesisParameters.timeHorizon params) <= nonzeroDraws tape)%nat ->
  exists res tape',
    generateSynthesizedData h params tape = Some (res, tape')
    /\ forall k pt, nth_error (SynthesisResult.data res) k = Some pt ->
         exists x,
           DataPoint.underlyingValue pt = Some x
           /\ x - Locals.theta l
              = (1 - Locals.kappa l * Locals.dt l) ^ k
                * (Locals.initialValue l - Locals.theta l).
Proof.
  intros l Hm Hsigma Hdraws.
  destruct (Enough_generate h params tape Hdraws) as (res & tape' & Hrun & _).
  exists res, tape'. split; [exact Hrun|].
  apply generate_Some in Hrun as (_ & _ & _ & Hpath).
  exact (PathFrom_vasicek_noiseless _ _ _ _ _ _ Hm Hsigma _ _ _ _ Hpath).
Qed.

(** ** Draws *)

(** The normal generator skips the draws that are zero: its value is
    the Box-Muller value of the first two draws that are not zero, it
    consumes the tape up to the second of them, and that value is at most
    sqrt(-2 ln u) in magnitude. *)
Theorem getStandardNormal_skips_zero_draws (n m : nat) (u v : number)
    (tape : list number) :
  u <> 0 -> v <> 0 ->
  getStandardNormal (zeroDraws n ++ u :: zeroDraws m ++ v :: tape)
  = Some (boxMuller u v, tape)
  /\ Rabs (boxMuller u v) <= sqrt (-2.0 * ln u).
Proof.
  intros Hu Hv.
  assert (Hskip : forall k x rest, x <> 0 ->
             redrawWhileZero (zeroDraws k ++ x :: rest) = Some (x, rest)).
  { intros k x rest Hx. induction k as [|k IH]; simpl.
    - destruct (Req_dec_T x 0); [contradiction|reflexivity].
    - destruct (Req_dec_T 0 0) as [_|Hne]; [exact IH|contradiction]. }
  split.
  - unfold getStandardNormal, bind.
    rewrite (Hskip n u _ Hu), (Hskip m v _ Hv). reflexivity.
  - unfold boxMuller. rewrite Rabs_mult.
    rewrite (Rabs_right (sqrt _)) by (apply Rle_ge, sqrt_pos).
    pose proof (sqrt_pos (-2.0 * ln u)) as Hs.
    pose proof (COS_bound (2.0 * PI * v)) as [Hlo Hhi].
    assert (Hcos : Rabs (cos (2.0 * PI * v)) <= 1) by (apply Rabs_le; lra).
    nra.
Qed.

Lemma getStandardNormal_skips_zero_draws_witness :
  1 / 2 <> 0 /\ 1 / 4 <> 0
  /\ getStandardNormal (zeroDraws 2 ++ (1 / 2) :: zeroDraws 1 ++ (1 / 4) :: [1 / 8])
     = Some (boxMuller (1 / 2) (1 / 4), [1 / 8]).
Proof.
  assert (Hu : 1 / 2 <> 0) by lra.
  assert (Hv : 1 / 4 <> 0) by lra.
  split; [exact Hu|]. split; [exact Hv|].
  exact (proj1 (getStandardNormal_skips_zero_draws 2 1 (1 / 2) (1 / 4) [1 / 8] Hu Hv)).
Defined.

Lemma evolve_pure l mu spot eps :
  Locals.modelType l <> EQUITY_MERTON_JUMP ->
  exists v, forall tape, evolve l mu spot eps tape = Some (v, tape).
Proof.
  intros Hm. unfold evolve.
  destruct (Locals.modelType l); try contradiction; eexists; intros tape; reflexivity.
Qed.

Lemma forLoop_exact_draws h l pv mu rho sd :
  Locals.modelType l <> EQUITY_MERTON_JUMP ->
  forall count used i st,
    Forall (fun u => u <> 0) used ->
    List.length used = (4 * count)%nat ->
    exists st', forall rest,
      forLoop h l pv mu rho sd count i st (used ++ rest) = Some (st', rest).
Proof.
  intros Hm count. induction count as [|count IH]; intros used i st Hnz Hlen.
  - destruct used; [|discriminate]. exists st. intros rest. reflexivity.
  - destruct used as [|um [|vm [|ui [|vi used]]]]; simpl in Hlen; try lia.
    inversion Hnz as [|? ? Hum Hnz1]; subst.
    inversion Hnz1 as [|? ? Hvm Hnz2]; subst.
    inversion Hnz2 as [|? ? Hui Hnz3]; subst.
    inversion Hnz3 as [|? ? Hvi Hnz4]; subst.
    destruct (evolve_pure l mu (currentSpot st)
                (coupledShock rho (boxMuller um vm) (boxMuller ui vi)) Hm)
      as (spot' & Hev).
    destruct (IH used (i + 1)%Z
                (mkLoopState spot' (nextMarketProxy l (marketProxy st) (boxMuller um vm))
                   (data st ++ [pathPoint h l pv sd i (currentSpot st) (marketProxy st)]))
                Hnz4) as (st' & Hloop); [lia|].
    exists st'. intros rest. cbn [forLoop]. unfold bind. simpl app.
    rewrite (iteration_draws h l pv mu rho sd i st um vm ui vi (used ++ rest) spot'
               (used ++ rest) Hum Hvm Hui Hvi (Hev _)).
    apply Hloop.
Qed.

(** Under every model but the jump model a run consumes exactly four
    draws per pass when none of them is zero: given 4 * (timeHorizon + 1)
    such draws it returns, and leaves whatever follows them on the tape
    untouched. *)
Theorem run_consumes_four_draws_per_pass (h : JSDate.Host)
    (params : SynthesisParameters.t) (used : list number) :
  SynthesisParameters.modelType params <> EQUITY_MERTON_JUMP ->
  Forall (fun u => u <> 0) used ->
  List.length used = (4 * passes (SynthesisParameters.timeHorizon params))%nat ->
  exists res, forall rest,
    generateSynthesizedData h params (used ++ rest) = Some (res, rest).
Proof.
  intros Hm Hnz Hlen.
  destruct (forLoop_exact_draws h (destructure params)
              (pricingVol (destructure params)) (effectiveMu (destructure params))
              (aggregateRho (destructure params)) (JSDate.now h) Hm
              (passes (SynthesisParameters.timeHorizon params)) used 0%Z
              (mkLoopState (Locals.initialValue (destructure params))
                 (Locals.initialValue (destructure params)) [])
              Hnz Hlen) as (st' & Hloop).
  eexists. intros rest. unfold generateSynthesizedData, bind.
  change (Locals.timeHorizon (destructure params))
    with (SynthesisParameters.timeHorizon params).
  rewrite Hloop. reflexivity.
Qed.

Lemma vasicek_noiseless_reversion_witness :
  Locals.modelType (destructure noiselessVasicek) = INTEREST_RATE_VASICEK
  /\ Locals.sigma (destructure noiselessVasicek) = 0
  /\ (7 * passes (SynthesisParameters.timeHorizon noiselessVasicek)
      <= nonzeroDraws (halves 14))%nat
  /\ exists res tape',
       generateSynthesizedData sampleHost noiselessVasicek (halves 14) = Some (res, tape')
       /\ forall k pt, nth_error (SynthesisResult.data res) k = Some pt ->
            exists x,
              DataPoint.underlyingValue pt = Some x
              /\ x - 0.05 = (1 - 2.0 * (1 / 252)) ^ k * (0.03 - 0.05).
Proof.
  assert (H : (7 * passes (SynthesisParameters.timeHorizon noiselessVasicek)
               <= nonzeroDraws (halves 14))%nat)
    by (rewrite nonzeroDraws_halves; simpl; lia).
  split; [reflexivity|]. split; [reflexivity|]. split; [exact H|].
  exact (vasicek_noiseless_reversion sampleHost noiselessVasicek (halves 14)
           eq_refl eq_refl H).
Defined.

Lemma Forall_halves_nonzero n : Forall (fun u => u <> 0) (halves n).
Proof.
  unfold halves. induction n as [|n IH]; simpl; constructor;
    [apply half_nonzero|exact IH].
Qed.

Lemma run_consumes_four_draws_per_pass_witness :
  SynthesisParameters.modelType twoStepEquity <> EQUITY_MERTON_JUMP
  /\ Forall (fun u => u <> 0) (halves 8)
  /\ List.length (halves 8)
     = (4 * passes (SynthesisParameters.timeHorizon twoStepEquity))%nat
  /\ exists res, forall rest,
       generateSynthesizedData sampleHost twoStepEquity (halves 8 ++ rest)
       = Some (res, rest).
Proof.
  assert (Hm : SynthesisParameters.modelType twoStepEquity <> EQUITY_MERTON_JUMP)
    by discriminate.
  assert (Hlen : List.length (halves 8)
                 = (4 * passes (SynthesisParameters.timeHorizon twoStepEquity))%nat)
    by reflexivity.
  split; [exact Hm|]. split; [apply Forall_halves_nonzero|]. split; [exact Hlen|].
  exact (run_consumes_four_draws_per_pass sampleHost twoStepEquity (halves 8) Hm
           (Forall_halves_nonzero 8) Hlen).
Defined.

(** ** The normal distribution helpers *)

Lemma cndPolynomial_nonneg (K : number) :
  0 <= K <= 1 ->
  0 <= 0.31938153 * K + -0.356563782 * K * K + 1.781477937 * K ^ 3
       + -1.821255978 * K ^ 4 + 1.330274429 * K ^ 5.
Proof.
  intros [H0 H1].
  pose proof (Rle_0_sqr (K - 0.6845)) as S1. unfold Rsqr in S1.
  pose proof (Rle_0_sqr (K - 0.1648)) as S2. unfold Rsqr in S2.
  assert (A : 0 <= 1.330274429 * (K * K) + -1.821255978 * K + 0.7) by lra.
  assert (B : 0 <= 1.081477937 * (K * K) + -0.356563782 * K + 0.31938153) by lra.
  assert (C : 0 <= K * K) by nra.
  assert (Q : 0 <= 0.31938153 + -0.356563782 * K + 1.781477937 * (K * K)
                   + -1.821255978 * (K * K * K) + 1.330274429 * (K * K * K * K))
    by nra.
  simpl. nra.
Qed.

Lemma cndPolynomial_le (K : number) :
  0 <= K <= 1 ->
  0.31938153 * K + -0.356563782 * K * K + 1.781477937 * K ^ 3
  + -1.821255978 * K ^ 4 + 1.330274429 * K ^ 5 <= 2.5.
Proof.
  intros [H0 H1].
  assert (C : 0 <= K * K <= K) by nra.
  assert (D : 0 <= K * K * K <= K * K) by nra.
  assert (E : 0 <= K * K * K * K <= K * K * K) by nra.
  assert (F : 0 <= K * K * K * K * K <= K * K * K * K) by nra.
  simpl. lra.
Qed.

Lemma CND_range (x : number) : 0 <= CND x <= 1.
Proof.
  unfold CND.
  set (L := Rabs x). set (K := 1.0 / (1.0 + 0.2316419 * L)).
  assert (HL : 0 <= L) by apply Rabs_pos.
  assert (HK : 0 < K <= 1).
  { unfold K. split.
    - apply Rdiv_lt_0_compat; lra.
    - apply (Rmult_le_reg_r (1.0 + 0.2316419 * L)); [lra|].
      unfold Rdiv. rewrite Rmult_assoc, Rinv_l by lra. lra. }
  pose proof (cndPolynomial_nonneg K (conj (Rlt_le _ _ (proj1 HK)) (proj2 HK))) as Hp0.
  pose proof (cndPolynomial_le K (conj (Rlt_le _ _ (proj1 HK)) (proj2 HK))) as Hp1.
  set (p := 0.31938153 * K + -0.356563782 * K * K + 1.781477937 * K ^ 3
            + -1.821255978 * K ^ 4 + 1.330274429 * K ^ 5) in *.
  assert (He : 0 < exp (- L * L / 2.0) <= 1).
  { split; [apply exp_pos|]. rewrite <- exp_0.
    destruct (Req_dec_T L 0) as [->|Hne].
    - replace (- 0 * 0 / 2.0) with 0 by lra. lra.
    - left. apply exp_increasing. nra. }
  set (e := exp (- L * L / 2.0)) in *.
  assert (Hc : 0 < 1.0 / sqrt (2.0 * PI) < 0.4).
  { replace (2.0 * PI) with (2 * PI) by lra.
    destruct sqrt_two_PI_bounds as [Hlo Hhi].
    set (s := sqrt (2 * PI)) in *. split.
    - apply Rdiv_lt_0_compat; lra.
    - apply (Rmult_lt_reg_r s); [lra|].
      unfold Rdiv. rewrite Rmult_assoc, Rinv_l by lra. lra. }
  set (c := 1.0 / sqrt (2.0 * PI)) in *.
  assert (Hce : 0 <= c * e <= 0.4) by nra.
  assert (Htail : 0 <= c * e * p <= 1) by nra.
  destruct (Rlt_dec x 0); lra.
Qed.

(** The polynomial approximation of the normal distribution function
    stays a probability: CND x lies in [0, 1] for every x, and
    CND (-x) = 1 - CND x for every x but zero. *)
Theorem CND_is_a_probability (x : number) :
  0 <= CND x <= 1 /\ (x <> 0 -> CND (- x) = 1 - CND x).
Proof.
  split; [apply CND_range|].
  intros Hx. pose proof (CND_symmetry x Hx). lra.
Qed.

Lemma CND_is_a_probability_witness :
  1 <> 0 /\ 0 <= CND 1 <= 1 /\ CND (- (1)) = 1 - CND 1.
Proof.
  assert (H : 1 <> 0) by lra.
  destruct (CND_is_a_probability 1) as (Hrange & Hreflect).
  split; [exact H|]. split; [exact Hrange|exact (Hreflect H)].
Defined.

(** The normal density is even, never negative, largest at zero, and
    below 0.4 everywhere. *)
Theorem normalPDF_shape (x : number) :
  normalPDF (- x) = normalPDF x
  /\ 0 <= normalPDF x <= normalPDF 0
  /\ normalPDF 0 < 0.4.
Proof.
  assert (Hc : 0 < 1 / sqrt (2 * PI) < 0.4).
  { destruct sqrt_two_PI_bounds as [Hlo Hhi].
    set (s := sqrt (2 * PI)) in *. split.
    - apply Rdiv_lt_0_compat; lra.
    - apply (Rmult_lt_reg_r s); [lra|].
      unfold Rdiv. rewrite Rmult_assoc, Rinv_l by lra. lra. }
  assert (H0 : normalPDF 0 = 1 / sqrt (2 * PI)).
  { unfold normalPDF. replace (-0.5 * 0 * 0) with 0 by lra. rewrite exp_0. lra. }
  split; [|split].
  - unfold normalPDF. f_equal. f_equal. lra.
  - split; [left; apply normalPDF_pos|].
    rewrite H0. unfold normalPDF.
    assert (He : exp (-0.5 * x * x) <= 1).
    { rewrite <- exp_0. destruct (Req_dec_T x 0) as [->|Hne].
      - replace (-0.5 * 0 * 0) with 0 by lra. lra.
      - left. apply exp_increasing. nra. }
    pose proof (exp_pos (-0.5 * x * x)). nra.
  - rewrite H0. lra.
Qed.

(** ** The pricers *)

Lemma calculateBS_delta (S K T r sigma : number) (isCall : bool) :
  0 < T ->
  Greeks.delta (greeks (calculateBS S K T r sigma isCall))
  = if isCall then CND (bsD1 S K T r sigma) else CND (bsD1 S K T r sigma) - 1.
Proof.
  intros HT. unfold calculateBS.
  destruct (Rle_dec T 0) as [Hle|_]; [lra|]. reflexivity.
Qed.

Lemma calculateBS_gamma_nonneg (S K T r sigma : number) (isCall : bool) :
  0 < S -> 0 < T -> 0 < sigma ->
  0 <= Greeks.gamma (greeks (calculateBS S K T r sigma isCall)).
Proof.
  intros HS HT Hsigma. unfold calculateBS.
  destruct (Rle_dec T 0) as [Hle|_]; [lra|]. simpl.
  left. apply Rdiv_lt_0_compat; [apply normalPDF_pos|].
  apply Rmult_lt_0_compat; [|now apply sqrt_lt_R0].
  now apply Rmult_lt_0_compat.
Qed.

Lemma calculateBS_vega_nonneg (S K T r sigma : number) (isCall : bool) :
  0 <= S -> 0 < T ->
  0 <= Greeks.vega (greeks (calculateBS S K T r sigma isCall)).
Proof.
  intros HS HT. unfold calculateBS.
  destruct (Rle_dec T 0) as [Hle|_]; [lra|]. simpl.
  apply Rmult_le_pos; [|apply sqrt_pos].
  apply Rmult_le_pos; [exact HS|left; apply normalPDF_pos].
Qed.

Lemma calculateBS_call_put_share (S K T r sigma : number) :
  Greeks.gamma (greeks (calculateBS S K T r sigma false))
  = Greeks.gamma (greeks (calculateBS S K T r sigma true))
  /\ Greeks.vega (greeks (calculateBS S K T r sigma false))
     = Greeks.vega (greeks (calculateBS S K T r sigma true)).
Proof.
  unfold calculateBS. destruct (Rle_dec T 0); split; reflexivity.
Qed.

(** Before expiry, for a positive spot, strike and volatility, the option
    Greeks keep to their ranges: the call delta lies in [0, 1], the put
    delta in [-1, 0] and is the call delta minus one, and gamma and vega
    are never negative and the same for the call and the put. *)
Theorem calculateBS_greek_ranges (S K T r sigma : number) :
  0 < S -> 0 < K -> 0 < T -> 0 < sigma ->
  let call := greeks (calculateBS S K T r sigma true) in
  let put := greeks (calculateBS S K T r sigma false) in
  0 <= Greeks.delta call <= 1
  /\ -1 <= Greeks.delta put <= 0
  /\ Greeks.delta put = Greeks.delta call - 1
  /\ 0 <= Greeks.gamma call /\ Greeks.gamma put = Greeks.gamma call
  /\ 0 <= Greeks.vega call /\ Greeks.vega put = Greeks.vega call.
Proof.
  intros HS HK HT Hsigma call put. subst call put.
  rewrite !calculateBS_delta by exact HT.
  destruct (CND_range (bsD1 S K T r sigma)) as [Hlo Hhi].
  destruct (calculateBS_call_put_share S K T r sigma) as [Hgamma Hvega].
  assert (Hg : 0 <= Greeks.gamma (greeks (calculateBS S K T r sigma true)))
    by (apply calculateBS_gamma_nonneg; lra).
  assert (Hv : 0 <= Greeks.vega (greeks (calculateBS S K T r sigma true)))
    by (apply calculateBS_vega_nonneg; lra).
  repeat split; try assumption; lra.
Qed.

Lemma calculateBS_greek_ranges_witness :
  0 < 100 /\ 0 < 100 /\ 0 < 1 /\ 0 < 0.2
  /\ 0 <= Greeks.delta (greeks (calculateBS 100 100 1 0.03 0.2 true)) <= 1
  /\ 0 <= Greeks.gamma (greeks (calculateBS 100 100 1 0.03 0.2 true)).
Proof.
  assert (H100 : 0 < 100) by lra.
  assert (H1 : 0 < 1) by lra.
  assert (Hs : 0 < 0.2) by lra.
  destruct (calculateBS_greek_ranges 100 100 1 0.03 0.2 H100 H100 H1 Hs)
    as (Hdelta & _ & _ & Hgamma & _).
  split; [exact H100|]. split; [exact H100|]. split; [exact H1|]. split; [exact Hs|].
  split; [exact Hdelta|exact Hgamma].
Defined.

(** Before expiry, for a positive forward rate, strike rate and volatility
    and a discount rate other than zero, whenever neither d1 nor d2 is
    zero, the payer and receiver swaption prices on the same inputs differ
    by the discounted annuity times (F - K), the two share gamma, vega and
    theta, and the rho of each is minus T times its price. *)
Theorem swaption_payer_receiver_parity (F K T r sigma : number) :
  0 < F -> 0 < K -> 0 < T -> 0 < sigma -> r <> 0 ->
  blackD1 F K T sigma <> 0 -> blackD2 F K T sigma <> 0 ->
  let payer := calculateBlackSwaption F K T r sigma true in
  let receiver := calculateBlackSwaption F K T r sigma false in
  price payer - price receiver = annuityFactor r * exp (- r * T) * (F - K)
  /\ Greeks.rho (greeks payer) = - T * price payer
  /\ Greeks.rho (greeks receiver) = - T * price receiver
  /\ Greeks.gamma (greeks payer) = Greeks.gamma (greeks receiver)
  /\ Greeks.vega (greeks payer) = Greeks.vega (greeks receiver)
  /\ Greeks.theta (greeks payer) = Greeks.theta (greeks receiver).
Proof.
  intros HF HK HT Hsigma Hr H1 H2 payer receiver. subst payer receiver.
  unfold calculateBlackSwaption.
  destruct (Rle_dec T 0) as [Hle|_]; [lra|]. simpl.
  fold (blackD1 F K T sigma). fold (blackD2 F K T sigma). fold (annuityFactor r).
  pose proof (CND_symmetry _ H1) as S1. pose proof (CND_symmetry _ H2) as S2.
  repeat split; try reflexivity.
  set (a := annuityFactor r * exp (- r * T)).
  replace (CND (- blackD2 F K T sigma)) with (1 - CND (blackD2 F K T sigma)) by lra.
  replace (CND (- blackD1 F K T sigma)) with (1 - CND (blackD1 F K T sigma)) by lra.
  ring.
Qed.

Lemma swaption_payer_receiver_parity_witness :
  0 < 0.03 /\ 0 < 0.03 /\ 0 < 1 /\ 0 < 0.2 /\ 0.05 <> 0
  /\ blackD1 0.03 0.03 1 0.2 <> 0 /\ blackD2 0.03 0.03 1 0.2 <> 0
  /\ price (calculateBlackSwaption 0.03 0.03 1 0.05 0.2 true)
     - price (calculateBlackSwaption 0.03 0.03 1 0.05 0.2 false)
     = annuityFactor 0.05 * exp (- (0.05) * 1) * (0.03 - 0.03).
Proof.
  assert (HF : 0 < 0.03) by lra.
  assert (HT : 0 < 1) by lra.
  assert (Hs : 0 < 0.2) by lra.
  assert (Hr : 0.05 <> 0) by lra.
  assert (Hd1 : blackD1 0.03 0.03 1 0.2 = 0.1).
  { unfold blackD1. replace (0.03 / 0.03) with 1 by lra.
    rewrite ln_1, sqrt_1. lra. }
  assert (H1 : blackD1 0.03 0.03 1 0.2 <> 0) by (rewrite Hd1; lra).
  assert (H2 : blackD2 0.03 0.03 1 0.2 <> 0).
  { unfold blackD2. rewrite Hd1, sqrt_1. lra. }
  split; [exact HF|]. split; [exact HF|]. split; [exact HT|]. split; [exact Hs|].
  split; [exact Hr|]. split; [exact H1|]. split; [exact H2|].
  exact (proj1 (swaption_payer_receiver_parity 0.03 0.03 1 0.05 0.2
                  HF HF HT Hs Hr H1 H2)).
Defined.

(** ** Derivative runs *)



(** For a swap the displayed value is the raw rate minus the strike rate,
    in basis points, and a strike of zero is replaced by a strike rate of
    3%: the strike rate is strikePrice / 1000 unless that is zero. *)
Theorem swap_strike_fallback (h : JSDate.Host) (params : SynthesisParameters.t)
    (tape : list number) :
  let l := destructure params in
  SynthesisParameters.assetClass params = SWAP ->
  (7 * passes (SynthesisParameters.timeHorizon params) <= nonzeroDraws tape)%nat ->
  exists res tape',
    generateSynthesizedData h params tape = Some (res, tape')
    /\ forall pt, In pt (SynthesisResult.data res) ->
         exists spot,
           DataPoint.underlyingValue pt = Some spot
           /\ DataPoint.secondaryValue pt = Some (Locals.strikePrice l)
           /\ (Locals.strikePrice l = 0 -> DataPoint.value pt = (spot - 0.03) * 10000)
           /\ (Locals.strikePrice l <> 0 ->
               DataPoint.value pt = (spot - Locals.strikePrice l / 1000) * 10000).
Proof.
  intros l Hclass Hdraws.
  destruct (run_points_plain h params tape Hdraws) as (res & tape' & Hrun & Hpts).
  exists res, tape'. split; [exact Hrun|].
  intros pt Hin. apply In_nth_error in Hin as (k & Hk).
  destruct (Hpts k pt Hk) as (s & p & ->). fold l.
  exists s. split; [apply pathPoint_underlying|].
  unfold pathPoint.
  change (Locals.assetClass l) with (SynthesisParameters.assetClass params).
  rewrite Hclass. simpl. split; [reflexivity|].
  unfold jsOr. split.
  - intros Hzero. rewrite Hzero.
    destruct (Req_dec_T (0 / 1000) 0) as [_|Hne]; [reflexivity|lra].
  - intros Hnz.
    destruct (Req_dec_T _ 0) as [Hz|_]; [|reflexivity].
    exfalso. apply Hnz. lra.
Qed.

Lemma swap_strike_fallback_witness :
  SynthesisParameters.assetClass zeroStrikeSwap = SWAP
  /\ (7 * passes (SynthesisParameters.timeHorizon zeroStrikeSwap)
      <= nonzeroDraws (halves 14))%nat
  /\ exists res tape',
       generateSynthesizedData sampleHost zeroStrikeSwap (halves 14) = Some (res, tape')
       /\ forall pt, In pt (SynthesisResult.data res) ->
            exists spot,
              DataPoint.underlyingValue pt = Some spot
              /\ DataPoint.value pt = (spot - 0.03) * 10000.
Proof.
  assert (H : (7 * passes (SynthesisParameters.timeHorizon zeroStrikeSwap)
               <= nonzeroDraws (halves 14))%nat)
    by (rewrite nonzeroDraws_halves; simpl; lia).
  split; [reflexivity|]. split; [exact H|].
  destruct (swap_strike_fallback sampleHost zeroStrikeSwap (halves 14) eq_refl H)
    as (res & tape' & Hrun & Hpts).
  exists res, tape'. split; [exact Hrun|].
  intros pt Hin. destruct (Hpts pt Hin) as (spot & Hu & _ & Hzero & _).
  exists spot. split; [exact Hu|]. apply Hzero. reflexivity.
Defined.

(** Without volatility the square-root (CIR) model keeps the raw state
    non-negative at every Path Point, for a target level theta >= 0, a
    reversion with 0 <= kappa * dt <= 1 and a non-negative initial value. *)
Theorem cir_noiseless_stays_nonnegative (h : JSDate.Host)
    (params : SynthesisParameters.t) (tape : list number) :
  let l := destructure params in
  Locals.modelType l = INTEREST_RATE_CIR ->
  Locals.sigma l = 0 ->
  0 <= Locals.theta l ->
  0 <= Locals.kappa l * Locals.dt l <= 1 ->
  0 <= Locals.initialValue l ->
  (7 * passes (SynthesisParameters.timeHorizon params) <= nonzeroDraws tape)%nat ->
  exists res tape',
    generateSynthesizedData h params tape = Some (res, tape')
    /\ forall pt, In pt (SynthesisResult.data res) ->
         exists x, DataPoint.underlyingValue pt = Some x /\ 0 <= x.
Proof.
  intros l Hm Hsigma Htheta Hkdt Hinit Hdraws.
  destruct (run_points (fun s => 0 <= s) (fun _ => True) h params tape Hdraws)
    as (res & tape' & Hrun & _ & Hpts); try exact I; try exact Hinit.
  - intros spot eps t spot' t' Hs Hev. fold l in Hev.
    rewrite (evolve_cir l _ spot eps t Hm) in Hev. injection Hev as <- _.
    apply (cirNext_without_downward_shock l spot eps Htheta Hkdt).
    rewrite Hsigma. lra.
  - intros; exact I.
  - exists res, tape'. split; [exact Hrun|].
    intros pt Hin. apply In_nth_error in Hin as (k & Hk).
    destruct (Hpts k pt Hk) as (s & p & Hs & _ & ->).
    exists s. split; [apply pathPoint_underlying|exact Hs].
Qed.

Lemma cir_noiseless_stays_nonnegative_witness :
  Locals.modelType (destructure noiselessCir) = INTEREST_RATE_CIR
  /\ Locals.sigma (destructure noiselessCir) = 0
  /\ 0 <= Locals.theta (destructure noiselessCir)
  /\ 0 <= Locals.kappa (destructure noiselessCir) * Locals.dt (destructure noiselessCir) <= 1
  /\ 0 <= Locals.initialValue (destructure noiselessCir)
  /\ (7 * passes (SynthesisParameters.timeHorizon noiselessCir)
      <= nonzeroDraws (halves 14))%nat
  /\ exists res tape',
       generateSynthesizedData sampleHost noiselessCir (halves 14) = Some (res, tape')
       /\ forall pt, In pt (SynthesisResult.data res) ->
            exists x, DataPoint.underlyingValue pt = Some x /\ 0 <= x.
Proof.
  assert (Htheta : 0 <= Locals.theta (destructure noiselessCir)) by (simpl; lra).
  assert (Hkdt : 0 <= Locals.kappa (destructure noiselessCir)
                      * Locals.dt (destructure noiselessCir) <= 1) by (simpl; lra).
  assert (Hinit : 0 <= Locals.initialValue (destructure noiselessCir)) by (simpl; lra).
  assert (H : (7 * passes (SynthesisParameters.timeHorizon noiselessCir)
               <= nonzeroDraws (halves 14))%nat)
    by (rewrite nonzeroDraws_halves; simpl; lia).
  split; [reflexivity|]. split; [reflexivity|]. split; [exact Htheta|].
  split; [exact Hkdt|]. split; [exact Hinit|]. split; [exact H|].
  exact (cir_noiseless_stays_nonnegative sampleHost noiselessCir (halves 14)
           eq_refl eq_refl Htheta Hkdt Hinit H).
Defined.
